(** * Western Blot Figure Tool: marker store, crop and interaction modes

    A shallow embedding of [src/mainb.py] (the final iteration of the
    application; [maina.py] has the same [CanvasView] and the same marker
    bookkeeping) and the properties of its coordinate handling, marker list,
    crop preview and pointer-mode handling.

    Conventions of the embedding.
    - Python [float] values (scene coordinates, kDa values, label sizes) are
      exact rationals [Q]; Python and C++ [int] values are [Z].
    - The windowing toolkit (Qt 6, through PySide6) is not part of the
      repository.  Its integer and real rectangles are modelled in
      [Module Qt] after the toolkit's documented behaviour; what depends on
      fonts, on the viewport and on the pixel copy is taken as an interface,
      [Toolkit].
    - The window object is a record that every handler takes and returns;
      a handler that would raise returns [None]. *)

From Stdlib Require Import List ZArith QArith Qround Bool Lia Lqa.
From Stdlib Require String.
From Stdlib Require Import Sorting.Sorted Sorting.Permutation.
Import ListNotations.

Set Implicit Arguments.

(* ================================================================== *)
(** ** Toolkit geometry *)
(* ================================================================== *)

Module Qt.

Local Open Scope Z_scope.

(** [QPoint]: a point with integer coordinates. *)
Record QPoint : Type := mkQPoint { px : Z; py : Z }.

(** [QPointF]: a point with real coordinates. *)
Record QPointF : Type := mkQPointF { fx : Q; fy : Q }.

(** [-p] on a [QPoint]. *)
Definition QPoint_neg (p : QPoint) : QPoint := mkQPoint (- px p) (- py p).

Definition QPoint_add (p q : QPoint) : QPoint :=
  mkQPoint (px p + px q) (py p + py q).

Definition QPoint_sub (p q : QPoint) : QPoint :=
  mkQPoint (px p - px q) (py p - py q).

(** The implicit conversion of a [QPoint] to a [QPointF]. *)
Definition toPointF (p : QPoint) : QPointF :=
  mkQPointF (inject_Z (px p)) (inject_Z (py p)).

(** [qRound]: [d >= 0.0 ? int(d + 0.5) : int(d - 0.5)], where [int]
    truncates towards zero. *)
Definition qRound (d : Q) : Z :=
  if Qle_bool 0 d then Qfloor (d + (1 # 2)) else Qceiling (d - (1 # 2)).

(** [QPointF.toPoint()]: both coordinates rounded. *)
Definition toPoint (p : QPointF) : QPoint :=
  mkQPoint (qRound (fx p)) (qRound (fy p)).

(** [QRect]: stored as its two corners, both inclusive, so that
    [right() = left() + width() - 1] and [bottom() = top() + height() - 1]. *)
Record QRect : Type := mkQRect { x1 : Z; y1 : Z; x2 : Z; y2 : Z }.

(** [QRect(topLeft, bottomRight)]. *)
Definition QRect_of_points (tl br : QPoint) : QRect :=
  mkQRect (px tl) (py tl) (px br) (py br).

(** [QRect(x, y, width, height)]. *)
Definition QRect_xywh (x y w h : Z) : QRect :=
  mkQRect x y (x + w - 1) (y + h - 1).

Definition left (r : QRect) : Z := x1 r.
Definition top (r : QRect) : Z := y1 r.
Definition right (r : QRect) : Z := x2 r.
Definition bottom (r : QRect) : Z := y2 r.
Definition width (r : QRect) : Z := x2 r - x1 r + 1.
Definition height (r : QRect) : Z := y2 r - y1 r + 1.

Definition topLeft (r : QRect) : QPoint := mkQPoint (x1 r) (y1 r).
Definition topRight (r : QRect) : QPoint := mkQPoint (x2 r) (y1 r).
Definition bottomRight (r : QRect) : QPoint := mkQPoint (x2 r) (y2 r).
Definition bottomLeft (r : QRect) : QPoint := mkQPoint (x1 r) (y2 r).

(** [isValid()]: [left() <= right() && top() <= bottom()]. *)
Definition isValid (r : QRect) : bool := (x1 r <=? x2 r) && (y1 r <=? y2 r).

(** [isEmpty()]: [left() > right() || top() > bottom()]. *)
Definition isEmpty (r : QRect) : bool := (x2 r <? x1 r) || (y2 r <? y1 r).

(** [normalized()]: a side whose corners are in the wrong order is
    swapped, the corners going from exclusive to inclusive. *)
Definition normalized (r : QRect) : QRect :=
  let '(a1, a2) := if x2 r <? x1 r then (x2 r + 1, x1 r - 1) else (x1 r, x2 r) in
  let '(b1, b2) := if y2 r <? y1 r then (y2 r + 1, y1 r - 1) else (y1 r, y2 r) in
  mkQRect a1 b1 a2 b2.

(** [translated(offset)]. *)
Definition translated (r : QRect) (d : QPoint) : QRect :=
  mkQRect (x1 r + px d) (y1 r + py d) (x2 r + px d) (y2 r + py d).

(** [adjusted(dx1, dy1, dx2, dy2)]. *)
Definition adjusted (r : QRect) (dx1 dy1 dx2 dy2 : Z) : QRect :=
  mkQRect (x1 r + dx1) (y1 r + dy1) (x2 r + dx2) (y2 r + dy2).

(** The part of [r] inside an image of [w] by [h] pixels, as corners. *)
Definition clipped (r : QRect) (w h : Z) : QRect :=
  mkQRect (Z.max (x1 r) 0) (Z.max (y1 r) 0)
          (Z.min (x2 r) (w - 1)) (Z.min (y2 r) (h - 1)).

(** [QRectF]: corner, width and height. *)
Record QRectF : Type := mkQRectF { xp : Q; yp : Q; wd : Q; ht : Q }.

(** [QRectF.toRect()]: the corner is rounded, and each size is rounded
    after it is given half of what the corner's rounding took away. *)
Definition toRect (r : QRectF) : QRect :=
  let nxp := qRound (xp r) in
  let nyp := qRound (yp r) in
  let nw := qRound (wd r + (xp r - inject_Z nxp) / 2)%Q in
  let nh := qRound (ht r + (yp r - inject_Z nyp) / 2)%Q in
  QRect_xywh nxp nyp nw nh.

Definition QPolygonF : Type := list QPointF.

Definition Qltb (a b : Q) : bool := negb (Qle_bool b a).

(** One iteration of the scan of [QPolygonF.boundingRect()]:
    [if (x < min) min = x; else if (x > max) max = x;]. *)
Definition stretch (mm : Q * Q) (v : Q) : Q * Q :=
  let '(mn, mx) := mm in
  if Qltb v mn then (v, mx) else if Qltb mx v then (mn, v) else (mn, mx).

(** [QPolygonF.boundingRect()]; [QRectF(0, 0, 0, 0)] for no points. *)
Definition boundingRect (poly : QPolygonF) : QRectF :=
  match poly with
  | [] => mkQRectF 0 0 0 0
  | p :: rest =>
      let '(minx, maxx) := fold_left stretch (map fx rest) (fx p, fx p) in
      let '(miny, maxy) := fold_left stretch (map fy rest) (fy p, fy p) in
      mkQRectF minx miny (maxx - minx) (maxy - miny)
  end.

(** The viewport-to-scene map of a view (scroll offset and inverse view
    matrix), as a function on points. *)
Definition ViewMap : Type := QPointF -> QPointF.

(** [QGraphicsView.mapToScene(QPoint)]. *)
Definition mapToScene (vm : ViewMap) (p : QPoint) : QPointF := vm (toPointF p).

(** [QGraphicsView.mapToScene(QRect)]: no points for a rectangle that is
    not valid, else the mapped corners of [rect.adjusted(0, 0, 1, 1)]. *)
Definition mapToScene_rect (vm : ViewMap) (rect : QRect) : QPolygonF :=
  if isValid rect then
    let r := adjusted rect 0 0 1 1 in
    [ mapToScene vm (topLeft r); mapToScene vm (topRight r);
      mapToScene vm (bottomRight r); mapToScene vm (bottomLeft r) ]
  else [].

End Qt.

Import Qt.

(* ================================================================== *)
(** ** Python list operations used by the marker list *)
(* ================================================================== *)

Section PythonList.

Variable A : Type.
Variable key : A -> Q.

(** One step of a stable insertion: [x] goes in front of the first
    element whose key is strictly greater, so behind every element
    with an equal key.  Only [<] on keys is used, as [list.sort] does. *)
Fixpoint insert_right (x : A) (l : list A) : list A :=
  match l with
  | [] => [x]
  | h :: t => if Qltb (key x) (key h) then x :: h :: t
              else h :: insert_right x t
  end.

(** [l.sort(key=key)]: the stable sort, elements taken left to right. *)
Definition list_sort (l : list A) : list A :=
  fold_left (fun acc x => insert_right x acc) l [].

(** [l.pop()]: the last element and the list without it; [None] stands
    for the [IndexError] on an empty list. *)
Fixpoint pop (l : list A) : option (A * list A) :=
  match l with
  | [] => None
  | x :: t => match pop t with
              | None => Some (x, [])
              | Some (z, t') => Some (z, x :: t')
              end
  end.

End PythonList.

(** Keys in non-decreasing order. *)
Definition key_le (A : Type) (key : A -> Q) (a b : A) : Prop :=
  key a <= key b.

(** By key, and by stamp among equal keys. *)
Definition aged (A : Type) (key : A -> Q) (stamp : A -> nat) (a b : A) : Prop :=
  key a <= key b /\ (key b <= key a -> (stamp a < stamp b)%nat).

(* ================================================================== *)
(** ** Data model *)
(* ================================================================== *)

(** A decoded raster: its rows of pixel values.  [QPixmap(path)] of a file
    that cannot be decoded has no rows. *)
Definition QPixmap : Type := list (list Z).

Definition pm_isNull (pm : QPixmap) : bool :=
  match pm with [] => true | _ :: _ => false end.

Definition pm_height (pm : QPixmap) : Z := Z.of_nat (length pm).

Definition pm_width (pm : QPixmap) : Z :=
  match pm with [] => 0%Z | row :: _ => Z.of_nat (length row) end.

(** What the program uses of the toolkit without fixing it. *)
Class Toolkit : Type := {
  (** the size of [QGraphicsSimpleTextItem(f"{val:g}").boundingRect()]
      in the 10 point font, as (width, height) *)
  label_size : Q -> Q * Q;
  (** [QPixmap.copy(rect)], a deep copy: it gives a new pixmap and leaves
      the one copied from as it is *)
  pixmap_copy : QPixmap -> QRect -> QPixmap;
  (** the viewport-to-scene map that [fitInView(rect, KeepAspectRatio)]
      leaves the view with *)
  fitInView : QRectF -> ViewMap;
  (** the viewport-to-scene map of a view that was never fitted *)
  initial_viewMap : ViewMap
}.

(** The identity of a scene item (a Python object). *)
Definition handle : Type := nat.

(** The graphics items the program creates. *)
Inductive Item : Type :=
| PixmapItem (pm : QPixmap) (pos : QPointF)
| LineItem (x0 y0 x1 y1 : Q)
| TextItem (val : Q) (pos : QPointF)
| PanelItem
| MessageItem.

(** A scene: its items, each under its handle, in the order added. *)
Definition Scene : Type := list (handle * Item).

Definition removeItem (sc : Scene) (h : handle) : Scene :=
  filter (fun e => negb (Nat.eqb (fst e) h)) sc.

(** One entry of [kda_markers]:
    [{"y": ..., "kda": ..., "line": ..., "text": ...}]. *)
Record Marker : Type := mkMarker {
  y : Q;
  kda : Q;
  line : handle;
  text : handle
}.

Inductive Mode : Type := crop | mark.

Inductive MouseButton : Type := LeftButton | RightButton | MiddleButton.

Record RubberBand : Type := mkRubberBand {
  geometry : QRect;
  isVisible : bool
}.

(** [CanvasView]: [crop_callback] and [mark_callback] are [true] once the
    window has bound its method to them, [false] while they are [None]. *)
Record CanvasView : Type := mkCanvasView {
  rubberBand : option RubberBand;
  origin : QPoint;
  mode : option Mode;
  crop_callback : bool;
  mark_callback : bool;
  viewMap : ViewMap
}.

(** The widget that [show_cropped_with_ticks] builds. *)
Record Preview : Type := mkPreview {
  pv_pixmap : QPixmap;
  pv_pixmap_pos : QPointF;
  pv_sceneRect : QRectF;
  pv_items : list Item
}.

(** [MainWindow]; [next_handle] is the identity the next created item
    gets. *)
Record MainWindow : Type := mkMainWindow {
  current_pixmap : option QPixmap;
  pixmap_item : option (handle * QPointF);
  kda_markers : list Marker;
  left_margin : Z;
  scene : Scene;
  sceneRect : QRectF;
  view : CanvasView;
  _crop_window : option Preview;
  next_handle : handle
}.

Definition set_view (s : MainWindow) (v : CanvasView) : MainWindow :=
  mkMainWindow (current_pixmap s) (pixmap_item s) (kda_markers s)
    (left_margin s) (scene s) (sceneRect s) v (_crop_window s) (next_handle s).

Definition set_mode (v : CanvasView) (m : option Mode) : CanvasView :=
  mkCanvasView (rubberBand v) (origin v) m (crop_callback v)
    (mark_callback v) (viewMap v).

Definition set_markers (s : MainWindow) (ms : list Marker) (sc : Scene)
    (n : handle) : MainWindow :=
  mkMainWindow (current_pixmap s) (pixmap_item s) ms (left_margin s) sc
    (sceneRect s) (view s) (_crop_window s) n.

Definition set_crop_window (s : MainWindow) (w : Preview) : MainWindow :=
  mkMainWindow (current_pixmap s) (pixmap_item s) (kda_markers s)
    (left_margin s) (scene s) (sceneRect s) (view s) (Some w) (next_handle s).

Definition set_rubberBand (v : CanvasView) (rb : RubberBand) : CanvasView :=
  mkCanvasView (Some rb) (origin v) (mode v) (crop_callback v)
    (mark_callback v) (viewMap v).

(* ================================================================== *)
(** ** Coordinate frames *)
(* ================================================================== *)

(** Where [open_image] puts the pixmap item in the scene:
    [setPos(self.left_margin, 0)]. *)
Definition placement (left_margin : Z) : QPointF :=
  mkQPointF (inject_Z left_margin) 0.

(** Modelled from the spec: the Coordinate Mapper's
    [imageToScene(imagePoint, leftMargin)], which adds [(leftMargin, 0)].
    The code has no function of this name: [open_image] places the pixmap
    item at [placement] and the toolkit shows each pixel shifted by it. *)
Definition imageToScene (p : QPoint) (left_margin : Z) : QPoint :=
  QPoint_add p (mkQPoint left_margin 0).

(** Modelled from the spec: the Coordinate Mapper's
    [sceneToImage(scenePoint, leftMargin)], which subtracts
    [(leftMargin, 0)] and fails, here with [None], when the resulting point
    lies outside [[0, imageWidth) x [0, imageHeight)].  The code has no
    function of this name and no such check: [crop_region] takes the
    position of the pixmap item away from the selection. *)
Definition sceneToImage (imageWidth imageHeight : Z) (p : QPoint)
    (left_margin : Z) : option QPoint :=
  let q := QPoint_sub p (mkQPoint left_margin 0) in
  if ((0 <=? px q)%Z && (px q <? imageWidth)%Z
      && (0 <=? py q)%Z && (py q <? imageHeight)%Z)%bool
  then Some q
  else None.

(* ================================================================== *)
(** ** The handlers of [MainWindow] and [CanvasView] *)
(* ================================================================== *)

Section Handlers.

Context {tk : Toolkit}.

Local Open Scope Q_scope.

(** [MainWindow.__init__] with [show_startup_message]: no image, no
    markers, a margin of 60, the message and its panel in the scene. *)
Definition init : MainWindow :=
  mkMainWindow None None [] 60
    [(1%nat, PanelItem); (0%nat, MessageItem)]
    (mkQRectF 0 0 1000 700)
    (mkCanvasView None (mkQPoint 0 0) None false false initial_viewMap)
    None 2%nat.

(** [open_image]: [path] is what the file dialog returned and [pixmap]
    is [QPixmap(path)]. *)
Definition open_image (s : MainWindow) (path : String.string)
    (pixmap : QPixmap) : MainWindow :=
  match path with
  | String.EmptyString => s
  | String.String _ _ =>
      if pm_isNull pixmap then s
      else
        let h := next_handle s in
        let pos := placement (left_margin s) in
        let rect :=
          mkQRectF 0 0 (inject_Z (pm_width pixmap + left_margin s + 10))
                   (inject_Z (pm_height pixmap)) in
        let v := view s in
        mkMainWindow (Some pixmap) (Some (h, pos)) [] (left_margin s)
          [(h, PixmapItem pixmap pos)] rect
          (mkCanvasView (rubberBand v) (origin v) (mode v) (crop_callback v)
             (mark_callback v) (fitInView rect))
          (_crop_window s) (S h)
  end.

(** [enable_mark_mode]. *)
Definition enable_mark_mode (s : MainWindow) : MainWindow :=
  match current_pixmap s with
  | None => s
  | Some _ =>
      let v := view s in
      set_view s (mkCanvasView (rubberBand v) (origin v) (Some mark)
                    (crop_callback v) true (viewMap v))
  end.

(** [enable_crop_mode]. *)
Definition enable_crop_mode (s : MainWindow) : MainWindow :=
  match current_pixmap s with
  | None => s
  | Some _ =>
      let v := view s in
      set_view s (mkCanvasView (rubberBand v) (origin v) (Some crop)
                    true (mark_callback v) (viewMap v))
  end.

(** [add_kda_marker]: [val] and [ok] are what the input dialog returned. *)
Definition add_kda_marker (s : MainWindow) (scene_y : Q) (val : Q)
    (ok : bool) : MainWindow :=
  match ok, pixmap_item s with
  | true, Some _ =>
      let x1 := inject_Z (left_margin s) - 2 in
      let x0 := x1 - 20 in
      let hl := next_handle s in
      let line_item := LineItem x0 scene_y x1 scene_y in
      let hlabel := S hl in
      let br := label_size val in
      let gap := 6 in
      let label_x := x0 - gap - fst br in
      let label_y := scene_y - snd br / 2 in
      let label := TextItem val (mkQPointF label_x label_y) in
      set_markers s
        (list_sort y (kda_markers s ++ [mkMarker scene_y val hl hlabel]))
        (scene s ++ [(hl, line_item)] ++ [(hlabel, label)])
        (S hlabel)
  | _, _ => s
  end.

(** [undo_last_kda]. *)
Definition undo_last_kda (s : MainWindow) : MainWindow :=
  match pop (kda_markers s) with
  | None => s
  | Some (last, rest) =>
      set_markers s rest
        (removeItem (removeItem (scene s) (line last)) (text last))
        (next_handle s)
  end.

(** [clear_all_kda]. *)
Definition clear_all_kda (s : MainWindow) : MainWindow :=
  set_markers s []
    (fold_left (fun sc d => removeItem (removeItem sc (line d)) (text d))
               (kda_markers s) (scene s))
    (next_handle s).

(** The test of the list comprehension in [crop_region]:
    [scene_rect.top() <= m["y"] <= scene_rect.bottom()]. *)
Definition inside_rect (scene_rect : QRect) (m : Marker) : bool :=
  Qle_bool (inject_Z (top scene_rect)) (y m)
  && Qle_bool (y m) (inject_Z (bottom scene_rect)).

(** The two items that the loop of [show_cropped_with_ticks] adds for
    one marker. *)
Definition preview_tick (left_margin : Q) (src_scene_rect : QRect)
    (m : Marker) : list Item :=
  let y_local := y m - inject_Z (top src_scene_rect) in
  let x1 := left_margin - 2 in
  let x0 := x1 - 20 in
  let br := label_size (kda m) in
  [ LineItem x0 y_local x1 y_local;
    TextItem (kda m) (mkQPointF (x0 - 6 - fst br) (y_local - snd br / 2)) ].

(** [show_cropped_with_ticks]. *)
Definition show_cropped_with_ticks (s : MainWindow) (pixmap : QPixmap)
    (markers : list Marker) (src_scene_rect : QRect) : MainWindow :=
  let left_margin := 60%Z in
  set_crop_window s
    (mkPreview pixmap (mkQPointF (inject_Z left_margin) 0)
       (mkQRectF 0 0 (inject_Z (pm_width pixmap + left_margin + 10))
                 (inject_Z (pm_height pixmap)))
       (flat_map (preview_tick (inject_Z left_margin) src_scene_rect)
                 markers)).

(** [crop_region]; [None] when [pixmap_item] or [current_pixmap] is
    [None], where Python raises.  The comprehension makes a new list of
    the markers it keeps; neither [kda_markers] nor an entry of it is
    assigned to, here or in [show_cropped_with_ticks]. *)
Definition crop_region (s : MainWindow) (scene_rect : QRect)
    : option MainWindow :=
  match pixmap_item s, current_pixmap s with
  | Some (_, pos), Some pm =>
      let offset := toPoint pos in
      let pix_rect := translated scene_rect (QPoint_neg offset) in
      let cropped := pixmap_copy pm pix_rect in
      let inside := filter (inside_rect scene_rect) (kda_markers s) in
      Some (show_cropped_with_ticks s cropped inside scene_rect)
  | _, _ => None
  end.

(** [CanvasView.mousePressEvent]; [val] and [ok] answer the dialog that
    a press in mark mode opens. *)
Definition mousePressEvent (s : MainWindow) (button : MouseButton)
    (pos : QPoint) (val : Q) (ok : bool) : MainWindow :=
  let v := view s in
  match button, mode v with
  | LeftButton, Some crop =>
      if crop_callback v then
        set_view s
          (mkCanvasView
             (Some (mkRubberBand (QRect_xywh (px pos) (py pos) (-1) (-1)) true))
             pos (mode v) (crop_callback v) (mark_callback v) (viewMap v))
      else s
  | LeftButton, Some mark =>
      if mark_callback v then
        let scene_pt := mapToScene (viewMap v) pos in
        add_kda_marker s (fy scene_pt) val ok
      else s
  | _, _ => s
  end.

(** [CanvasView.mouseMoveEvent]. *)
Definition mouseMoveEvent (s : MainWindow) (pos : QPoint) : MainWindow :=
  let v := view s in
  match rubberBand v with
  | Some rb =>
      if isVisible rb then
        let rect := normalized (QRect_of_points (origin v) pos) in
        set_view s (set_rubberBand v (mkRubberBand rect true))
      else s
  | None => s
  end.

(** The rectangle that [mouseReleaseEvent] hands to the crop callback. *)
Definition release_scene_rect (v : CanvasView) (pos : QPoint) : QRect :=
  let rect := normalized (QRect_of_points (origin v) pos) in
  toRect (boundingRect (mapToScene_rect (viewMap v) rect)).

(** [CanvasView.mouseReleaseEvent]; when the callback raises, the
    handler is left before [self.mode = None]. *)
Definition mouseReleaseEvent (s : MainWindow) (pos : QPoint) : MainWindow :=
  let v := view s in
  match rubberBand v with
  | Some rb =>
      if isVisible rb then
        let s1 := set_view s (set_rubberBand v (mkRubberBand (geometry rb) false)) in
        let scene_rect := release_scene_rect v pos in
        if crop_callback v then
          match crop_region s1 scene_rect with
          | Some s2 => set_view s2 (set_mode (view s2) None)
          | None => s1
          end
        else set_view s1 (set_mode (view s1) None)
      else s
  | None => s
  end.

(** What reaches the window: menu commands with the answers of their
    dialogs, and pointer events on the view. *)
Inductive event : Type :=
| OpenImage (path : String.string) (pixmap : QPixmap)
| EnableMarkMode
| EnableCropMode
| UndoLastKda
| ClearAllKda
| MousePress (button : MouseButton) (pos : QPoint) (val : Q) (ok : bool)
| MouseMove (pos : QPoint)
| MouseRelease (pos : QPoint).

Definition step (s : MainWindow) (e : event) : MainWindow :=
  match e with
  | OpenImage path pixmap => open_image s path pixmap
  | EnableMarkMode => enable_mark_mode s
  | EnableCropMode => enable_crop_mode s
  | UndoLastKda => undo_last_kda s
  | ClearAllKda => clear_all_kda s
  | MousePress button pos val ok => mousePressEvent s button pos val ok
  | MouseMove pos => mouseMoveEvent s pos
  | MouseRelease pos => mouseReleaseEvent s pos
  end.

(** The window after a sequence of events, oldest first. *)
Definition run (evs : list event) (s : MainWindow) : MainWindow :=
  fold_left step evs s.

End Handlers.

(* ================================================================== *)
(** ** Notions used by the statements *)
(* ================================================================== *)

(** The order that the marker list is kept in: by [y], and among equal
    [y] by age (an older marker has the smaller line handle). *)
Definition marker_order : Marker -> Marker -> Prop := aged y line.

(** The markers are in [marker_order] and older than the next handle. *)
Definition store_inv (s : MainWindow) : Prop :=
  StronglySorted marker_order (kda_markers s)
  /\ Forall (fun m => (line m < next_handle s)%nat) (kda_markers s).

(** A mode is set only with its callback, a callback only with an image,
    and an image only with its item. *)
Definition armed_inv (s : MainWindow) : Prop :=
  (mode (view s) = Some crop -> crop_callback (view s) = true)
  /\ (mode (view s) = Some mark -> mark_callback (view s) = true)
  /\ (crop_callback (view s) = true -> current_pixmap s <> None)
  /\ (mark_callback (view s) = true -> current_pixmap s <> None)
  /\ (current_pixmap s <> None -> pixmap_item s <> None).

(** A press of the mouse from its button, place and dialog answer. *)
Definition press_of (c : MouseButton * QPoint * Q * bool) : event :=
  let '(b, p, v, ok) := c in MousePress b p v ok.

(** A crop drag is under way: the rubber band exists and is shown. *)
Definition band_visible (s : MainWindow) : bool :=
  match rubberBand (view s) with
  | Some rb => isVisible rb
  | None => false
  end.

(** A crop drag that its release will complete: the band is shown, the
    callback is bound and the image is there. *)
Definition dragging (s : MainWindow) : Prop :=
  band_visible s = true /\ crop_callback (view s) = true
  /\ pixmap_item s <> None /\ current_pixmap s <> None.

(** The vertical positions of the tick lines among preview items. *)
Definition tick_positions (items : list Item) : list Q :=
  flat_map (fun i => match i with
                     | LineItem _ y0 _ _ => [y0]
                     | _ => []
                     end) items.

(** The selection, moved to image pixels and cut to the image, has no
    width or no height. *)
Definition degenerate_crop (s : MainWindow) (scene_rect : QRect) : bool :=
  match pixmap_item s, current_pixmap s with
  | Some (_, pos), Some pm =>
      let c := clipped (translated scene_rect (QPoint_neg (toPoint pos)))
                       (pm_width pm) (pm_height pm) in
      (width c <=? 0)%Z || (height c <=? 0)%Z
  | _, _ => false
  end.

(* ================================================================== *)
(** ** A toolkit and a session to compute with *)
(* ================================================================== *)

(** A pixel copy: the whole image for an empty rectangle, else the part
    of the image under the rectangle. *)
Definition sub_image (pm : QPixmap) (r : QRect) : QPixmap :=
  if isEmpty r then pm
  else
    let c := clipped r (pm_width pm) (pm_height pm) in
    if isEmpty c then []
    else
      map (fun row => firstn (Z.to_nat (width c)) (skipn (Z.to_nat (x1 c)) row))
          (firstn (Z.to_nat (height c)) (skipn (Z.to_nat (y1 c)) pm)).

(** Labels of 30 by 12, the pixel copy above, and a view that shows the
    scene unscaled and unscrolled. *)
Definition plain_toolkit : Toolkit :=
  {| label_size := fun _ => (30, 12);
     pixmap_copy := sub_image;
     fitInView := fun _ p => p;
     initial_viewMap := fun p => p |}.

(** A gel image of 100 by 240 pixels. *)
Definition gel : QPixmap := repeat (repeat 0%Z 100) 240.

Definition gel_path : String.string :=
  String.String (Ascii.ascii_of_nat 103) String.EmptyString.

(** A click of the left button at viewport height [h], answered by [val]. *)
Definition click_at (h : Z) (val : Q) : event :=
  MousePress LeftButton (mkQPoint 30 h) val true.

(** The window with [gel] open. *)
Definition opened : MainWindow :=
  run (tk := plain_toolkit) [OpenImage gel_path gel] (init (tk := plain_toolkit)).

(** [gel] open, mark mode on, a marker of 70 kDa placed at 100 and then
    one of 100 kDa at 50. *)
Definition two_markers : MainWindow :=
  run (tk := plain_toolkit)
    [EnableMarkMode; click_at 100 70; click_at 50 100] opened.

(** [gel] open with one marker at 120 and one at 5. *)
Definition marked_120_5 : MainWindow :=
  run (tk := plain_toolkit)
    [EnableMarkMode; click_at 120 70; click_at 5 250] opened.

(** A selection that lies in the left margin: 30 wide from x = 0, rows
    100 to 199. *)
Definition margin_rect : QRect := QRect_xywh 0 100 30 100.

(** With the markers at 120 and 5: crop mode is chosen and the mouse is
    dragged from (0, 100) to (29, 199), inside the left margin. *)
Definition margin_drag : list event :=
  [EnableCropMode; MousePress LeftButton (mkQPoint 0 100) 0 false;
   MouseMove (mkQPoint 15 150); MouseRelease (mkQPoint 29 199)].

(** With the markers at 120 and 5: crop mode is chosen, the left button
    is pressed at (70, 20) and let go at (69, 60), one pixel to the left. *)
Definition empty_drag : list event :=
  [EnableCropMode; MousePress LeftButton (mkQPoint 70 20) 0 false;
   MouseRelease (mkQPoint 69 60)].

(** The selection that [empty_drag] hands to the crop: [QRect(0, 0, 0, 0)]. *)
Definition empty_rect : QRect := QRect_xywh 0 0 0 0.

(** A selection over the image from row 100 to row 200. *)
Definition rows_100_200 : QRect := mkQRect 70 100 120 200.

(** Crop mode on and the left button pressed at (70, 20). *)
Definition drag_begun : MainWindow :=
  run (tk := plain_toolkit)
    [EnableCropMode; MousePress LeftButton (mkQPoint 70 20) 0 false] opened.

(** The events that lead to [two_markers] and to [marked_120_5] from the
    start. *)
Definition two_marker_events : list event :=
  [OpenImage gel_path gel; EnableMarkMode; click_at 100 70; click_at 50 100].

Definition marked_events : list event :=
  [OpenImage gel_path gel; EnableMarkMode; click_at 120 70; click_at 5 250].

(** A crop drag is begun, then mark mode is chosen from the menu while
    the button is still down. *)
Definition drag_then_mark : MainWindow :=
  run (tk := plain_toolkit)
    [EnableCropMode; MousePress LeftButton (mkQPoint 70 20) 0 false;
     EnableMarkMode] opened.

(* ================================================================== *)
(** ** Notions used by the further properties *)
(* ================================================================== *)

Section SceneNotions.

Context {tk : Toolkit}.

(** The tick and the label that [add_kda_marker] adds to the scene for a
    marker, each under the handle the marker records for it. *)
Definition marker_items (left_margin : Z) (m : Marker) : Scene :=
  let x1 := inject_Z left_margin - 2 in
  let x0 := x1 - 20 in
  let br := label_size (kda m) in
  [ (line m, LineItem x0 (y m) x1 (y m));
    (text m, TextItem (kda m)
               (mkQPointF (x0 - 6 - fst br) (y m - snd br / 2))) ].

(** The scene shows the store: the margin is 60, no two items share a
    handle, every handle is older than the next one, and with an image
    loaded the scene holds the image at (60, 0) and the tick and label of
    each marker, nothing else; with no image there is no marker. *)
Definition scene_inv (s : MainWindow) : Prop :=
  left_margin s = 60%Z
  /\ NoDup (map fst (scene s))
  /\ Forall (fun h => (h < next_handle s)%nat) (map fst (scene s))
  /\ match pixmap_item s with
     | None => current_pixmap s = None /\ kda_markers s = []
     | Some (h, pos) =>
         pos = placement 60
         /\ exists pm : QPixmap,
              current_pixmap s = Some pm
              /\ Permutation.Permutation (scene s)
                   ((h, PixmapItem pm pos)
                      :: flat_map (marker_items 60) (kda_markers s))
     end.

End SceneNotions.

(** A tick line that lies in the left margin of 60, short of the image. *)
Definition tick_in_gutter (i : Item) : Prop :=
  match i with
  | LineItem x0 _ x1 _ => 0 <= x0 /\ x0 < x1 /\ x1 < 60
  | _ => True
  end.

(** Every preview made so far has its image at (60, 0) and its ticks in
    the margin. *)
Definition preview_inv (s : MainWindow) : Prop :=
  match _crop_window s with
  | None => True
  | Some pv =>
      pv_pixmap_pos pv = mkQPointF 60 0 /\ Forall tick_in_gutter (pv_items pv)
  end.

(** Two windows that agree in everything but the geometry of a rubber
    band that both have. *)
Definition same_but_band (s t : MainWindow) : Prop :=
  current_pixmap s = current_pixmap t
  /\ pixmap_item s = pixmap_item t
  /\ kda_markers s = kda_markers t
  /\ left_margin s = left_margin t
  /\ scene s = scene t
  /\ sceneRect s = sceneRect t
  /\ _crop_window s = _crop_window t
  /\ next_handle s = next_handle t
  /\ origin (view s) = origin (view t)
  /\ mode (view s) = mode (view t)
  /\ crop_callback (view s) = crop_callback (view t)
  /\ mark_callback (view s) = mark_callback (view t)
  /\ viewMap (view s) = viewMap (view t)
  /\ band_visible s = band_visible t
  /\ (rubberBand (view s) = None <-> rubberBand (view t) = None).

(** A view that is scrolled by whole pixels and not zoomed: it maps a
    viewport point to the point [(dx, dy)] further on. *)
Definition unzoomed (vm : ViewMap) (dx dy : Z) : Prop :=
  forall p : QPointF,
    fx (vm p) == fx p + inject_Z dx /\ fy (vm p) == fy p + inject_Z dy.

(* ================================================================== *)
(** ** The earlier iterations: [main.py] and [maina.py] *)
(* ================================================================== *)

(** [main.py]: a window that only opens images. *)
Module MainPy.

(** [MainWindow] of [main.py]: the scene, the view's map and the
    identity of the next item. *)
Record MainWindow : Type := mkMainWindow {
  scene : Scene;
  viewMap : ViewMap;
  next_handle : handle
}.

Section Handlers.

Context {tk : Toolkit}.

(** [__init__]: an empty scene. *)
Definition init : MainWindow := mkMainWindow [] initial_viewMap 0%nat.

(** [open_image]: with a file chosen, the scene is cleared and the
    pixmap is added, decoded or not; the view is fitted to the bounding
    rectangle of the items, which is that of the pixmap at (0, 0). *)
Definition open_image (s : MainWindow) (fname : String.string)
    (pixmap : QPixmap) : MainWindow :=
  match fname with
  | String.EmptyString => s
  | String.String _ _ =>
      let h := next_handle s in
      let itemsBoundingRect :=
        mkQRectF 0 0 (inject_Z (pm_width pixmap))
                 (inject_Z (pm_height pixmap)) in
      mkMainWindow [(h, PixmapItem pixmap (mkQPointF 0 0))]
                   (fitInView itemsBoundingRect) (S h)
  end.

(** The window after a sequence of Open Image commands, each with the
    file name chosen and what it decodes to. *)
Definition run (calls : list (String.string * QPixmap)) (s : MainWindow)
    : MainWindow :=
  fold_left (fun s c => open_image s (fst c) (snd c)) calls s.

End Handlers.

(** The pixmap of the last command for which a file was chosen. *)
Fixpoint last_chosen (calls : list (String.string * QPixmap))
    : option QPixmap :=
  match calls with
  | [] => None
  | (fname, pm) :: rest =>
      match last_chosen rest with
      | Some pm' => Some pm'
      | None => match fname with
                | String.EmptyString => None
                | String.String _ _ => Some pm
                end
      end
  end.

End MainPy.

(** [maina.py]: markers and crop without the left margin.  The window
    has no [left_margin]; the field of the record stays 0 and is not
    read.  [enable_mark_mode], [enable_crop_mode], [undo_last_kda],
    [clear_all_kda] and [mouseMoveEvent] have the same text as in
    [mainb.py] and are taken from above. *)
Module MainA.

Section Handlers.

Context {tk : Toolkit}.

(** [MainWindow.__init__]: nothing loaded, an empty scene. *)
Definition init : MainWindow :=
  mkMainWindow None None [] 0 [] (mkQRectF 0 0 0 0)
    (mkCanvasView None (mkQPoint 0 0) None false false initial_viewMap)
    None 0%nat.

(** [open_image]: the pixmap item stays at (0, 0) and the view is fitted
    to [pixmap.rect()]. *)
Definition open_image (s : MainWindow) (path : String.string)
    (pixmap : QPixmap) : MainWindow :=
  match path with
  | String.EmptyString => s
  | String.String _ _ =>
      if pm_isNull pixmap then s
      else
        let h := next_handle s in
        let pos := mkQPointF 0 0 in
        let rect :=
          mkQRectF 0 0 (inject_Z (pm_width pixmap))
                   (inject_Z (pm_height pixmap)) in
        let v := view s in
        mkMainWindow (Some pixmap) (Some (h, pos)) [] (left_margin s)
          [(h, PixmapItem pixmap pos)] rect
          (mkCanvasView (rubberBand v) (origin v) (mode v) (crop_callback v)
             (mark_callback v) (fitInView rect))
          (_crop_window s) (S h)
  end.

(** [add_kda_marker]: the tick starts at the left edge of the image,
    [pixmap_item.sceneBoundingRect().left()], and is 20 long; the label
    is 6 to its right and 8 above. *)
Definition add_kda_marker (s : MainWindow) (scene_y : Q) (val : Q)
    (ok : bool) : MainWindow :=
  match ok, pixmap_item s with
  | true, Some (_, pos) =>
      let img_left := fx pos in
      let x0 := img_left in
      let x1 := img_left + 20 in
      let hl := next_handle s in
      let line_item := LineItem x0 scene_y x1 scene_y in
      let hlabel := S hl in
      let label := TextItem val (mkQPointF (x1 + 6) (scene_y - 8)) in
      set_markers s
        (list_sort y (kda_markers s ++ [mkMarker scene_y val hl hlabel]))
        (scene s ++ [(hl, line_item)] ++ [(hlabel, label)])
        (S hlabel)
  | _, _ => s
  end.

(** The two items that the loop of [show_cropped_with_ticks] adds for
    one marker. *)
Definition preview_tick (src_rect : QRect) (m : Marker) : list Item :=
  let y_local := y m - inject_Z (top src_rect) in
  let x0 := 0 in
  let x1 := 20 in
  [ LineItem x0 y_local x1 y_local;
    TextItem (kda m) (mkQPointF (x1 + 6) (y_local - 8)) ].

(** [show_cropped_with_ticks]: the crop at (0, 0), the ticks over it. *)
Definition show_cropped_with_ticks (s : MainWindow) (pixmap : QPixmap)
    (markers : list Marker) (src_rect : QRect) : MainWindow :=
  set_crop_window s
    (mkPreview pixmap (mkQPointF 0 0)
       (mkQRectF 0 0 (inject_Z (pm_width pixmap))
                 (inject_Z (pm_height pixmap)))
       (flat_map (preview_tick src_rect) markers)).

(** [crop_region]: the scene rectangle is copied as it is; [None] when
    [current_pixmap] is [None], where Python raises. *)
Definition crop_region (s : MainWindow) (scene_rect : QRect)
    : option MainWindow :=
  match current_pixmap s with
  | Some pm =>
      let cropped := pixmap_copy pm scene_rect in
      let inside := filter (inside_rect scene_rect) (kda_markers s) in
      Some (show_cropped_with_ticks s cropped inside scene_rect)
  | None => None
  end.

(** [CanvasView.mousePressEvent], with the callbacks of this file. *)
Definition mousePressEvent (s : MainWindow) (button : MouseButton)
    (pos : QPoint) (val : Q) (ok : bool) : MainWindow :=
  let v := view s in
  match button, mode v with
  | LeftButton, Some crop =>
      if crop_callback v then
        set_view s
          (mkCanvasView
             (Some (mkRubberBand (QRect_xywh (px pos) (py pos) (-1) (-1)) true))
             pos (mode v) (crop_callback v) (mark_callback v) (viewMap v))
      else s
  | LeftButton, Some mark =>
      if mark_callback v then
        let scene_pt := mapToScene (viewMap v) pos in
        add_kda_marker s (fy scene_pt) val ok
      else s
  | _, _ => s
  end.

(** [CanvasView.mouseReleaseEvent], with the callbacks of this file. *)
Definition mouseReleaseEvent (s : MainWindow) (pos : QPoint) : MainWindow :=
  let v := view s in
  match rubberBand v with
  | Some rb =>
      if isVisible rb then
        let s1 := set_view s (set_rubberBand v (mkRubberBand (geometry rb) false)) in
        let scene_rect := release_scene_rect v pos in
        if crop_callback v then
          match crop_region s1 scene_rect with
          | Some s2 => set_view s2 (set_mode (view s2) None)
          | None => s1
          end
        else set_view s1 (set_mode (view s1) None)
      else s
  | None => s
  end.

Definition step (s : MainWindow) (e : event) : MainWindow :=
  match e with
  | OpenImage path pixmap => open_image s path pixmap
  | EnableMarkMode => enable_mark_mode s
  | EnableCropMode => enable_crop_mode s
  | UndoLastKda => undo_last_kda s
  | ClearAllKda => clear_all_kda s
  | MousePress button pos val ok => mousePressEvent s button pos val ok
  | MouseMove pos => mouseMoveEvent s pos
  | MouseRelease pos => mouseReleaseEvent s pos
  end.

Definition run (evs : list event) (s : MainWindow) : MainWindow :=
  fold_left step evs s.

End Handlers.

(** A tick of [maina.py]: from the image's left edge at 0 to 20, over
    the image. *)
Definition tick_over_image (i : Item) : Prop :=
  match i with
  | LineItem x0 _ x1 _ => x0 = 0 /\ x1 = 20
  | _ => True
  end.

(** The image is at (0, 0) and every tick of the scene lies over it. *)
Definition edge_inv (s : MainWindow) : Prop :=
  (forall (h : handle) (pos : QPointF),
     pixmap_item s = Some (h, pos) -> pos = mkQPointF 0 0)
  /\ Forall tick_over_image (map snd (scene s)).

End MainA.

(** [maina.py] with [gel] open and markers at 120 and 5. *)
Definition maina_marked : MainWindow :=
  MainA.run (tk := plain_toolkit) marked_events (MainA.init (tk := plain_toolkit)).

(** [maina.py] with [gel] open and two markers placed at 50, of 10 kDa and
    then of 20 kDa. *)
Definition maina_ties : list event :=
  [OpenImage gel_path gel; EnableMarkMode; click_at 50 10; click_at 50 20].

(* ================================================================== *)
(** ** Comparisons and rounding *)
(* ================================================================== *)

Lemma Qltb_true (a b : Q) : Qltb a b = true <-> a < b.
Proof.
  unfold Qltb. rewrite negb_true_iff. split; intro H.
  - apply Qnot_le_lt. intro Hle. apply Qle_bool_iff in Hle. congruence.
  - destruct (Qle_bool b a) eqn:E; [|reflexivity].
    apply Qle_bool_iff in E. exfalso. exact (Qlt_not_le _ _ H E).
Qed.

Lemma Qltb_false (a b : Q) : Qltb a b = false <-> b <= a.
Proof.
  unfold Qltb. rewrite negb_false_iff. apply Qle_bool_iff.
Qed.

(** A rounded value is within a half of what was rounded. *)
Lemma qRound_bounds (d : Q) :
  inject_Z (qRound d) - (1 # 2) <= d /\ d <= inject_Z (qRound d) + (1 # 2).
Proof.
  unfold qRound. destruct (Qle_bool 0 d).
  - pose proof (Qfloor_le (d + (1 # 2))) as Hlo.
    pose proof (Qlt_floor (d + (1 # 2))) as Hhi.
    rewrite inject_Z_plus in Hhi. change (inject_Z 1) with 1 in Hhi.
    split; lra.
  - pose proof (Qle_ceiling (d - (1 # 2))) as Hhi.
    pose proof (Qceiling_lt (d - (1 # 2))) as Hlo.
    unfold Z.sub in Hlo. rewrite inject_Z_plus in Hlo.
    change (inject_Z (- (1))) with (- (1)) in Hlo.
    split; lra.
Qed.

(** Rounding an integer gives it back. *)
Lemma qRound_inject_Z (n : Z) : qRound (inject_Z n) = n.
Proof.
  destruct (qRound_bounds (inject_Z n)) as [Hlo Hhi].
  set (r := qRound (inject_Z n)) in *.
  assert (H1 : (r < n + 1)%Z).
  { rewrite Zlt_Qlt, inject_Z_plus. change (inject_Z 1) with 1. lra. }
  assert (H2 : (n < r + 1)%Z).
  { rewrite Zlt_Qlt, inject_Z_plus. change (inject_Z 1) with 1. lra. }
  lia.
Qed.

(** What is above minus a half does not round below zero. *)
Lemma qRound_nonneg (d : Q) : - (1 # 2) < d -> (0 <= qRound d)%Z.
Proof.
  intro Hd. destruct (qRound_bounds d) as [_ Hhi].
  assert (H : (-1 < qRound d)%Z).
  { rewrite Zlt_Qlt. change (inject_Z (-1)) with (- (1)). lra. }
  lia.
Qed.

(* ================================================================== *)
(** ** Rectangles *)
(* ================================================================== *)

Lemma normalized_size (r : QRect) :
  (0 <= width (normalized r))%Z /\ (0 <= height (normalized r))%Z.
Proof.
  unfold normalized, width, height.
  destruct (Z.ltb_spec (x2 r) (x1 r)), (Z.ltb_spec (y2 r) (y1 r));
    simpl; lia.
Qed.

Lemma stretch_ordered (l : list Q) (mn mx : Q) :
  mn <= mx -> fst (fold_left stretch l (mn, mx)) <= snd (fold_left stretch l (mn, mx)).
Proof.
  revert mn mx. induction l as [|v l IH]; intros mn mx H; simpl.
  - exact H.
  - destruct (Qltb v mn) eqn:E1.
    + apply IH. apply Qltb_true in E1. lra.
    + destruct (Qltb mx v) eqn:E2.
      * apply IH. apply Qltb_true in E2. lra.
      * apply IH, H.
Qed.

Lemma boundingRect_size (poly : QPolygonF) :
  0 <= wd (boundingRect poly) /\ 0 <= ht (boundingRect poly).
Proof.
  destruct poly as [|p rest]; simpl.
  - split; apply Qle_refl.
  - pose proof (stretch_ordered (map fx rest) (Qle_refl (fx p))) as Hx.
    pose proof (stretch_ordered (map fy rest) (Qle_refl (fy p))) as Hy.
    destruct (fold_left stretch (map fx rest) (fx p, fx p)) as [minx maxx].
    destruct (fold_left stretch (map fy rest) (fy p, fy p)) as [miny maxy].
    simpl in *. split; lra.
Qed.

Lemma toRect_size (r : QRectF) :
  0 <= wd r -> 0 <= ht r ->
  (0 <= width (toRect r))%Z /\ (0 <= height (toRect r))%Z.
Proof.
  intros Hw Hh. unfold toRect, QRect_xywh, width, height; simpl.
  destruct (qRound_bounds (xp r)) as [Hx _].
  destruct (qRound_bounds (yp r)) as [Hy _].
  assert (Hqw : (0 <= qRound (wd r + (xp r - inject_Z (qRound (xp r))) / 2))%Z).
  { apply qRound_nonneg. unfold Qdiv. change (/ 2) with (1 # 2).
    set (n := inject_Z (qRound (xp r))) in *. lra. }
  assert (Hqh : (0 <= qRound (ht r + (yp r - inject_Z (qRound (yp r))) / 2))%Z).
  { apply qRound_nonneg. unfold Qdiv. change (/ 2) with (1 # 2).
    set (n := inject_Z (qRound (yp r))) in *. lra. }
  lia.
Qed.

(* ================================================================== *)
(** ** The list operations *)
(* ================================================================== *)

Section ListFacts.

Variable A : Type.
Variable key : A -> Q.

Lemma pop_snoc (l : list A) (x : A) : pop (l ++ [x]) = Some (x, l).
Proof.
  induction l as [|h t IH]; simpl.
  - reflexivity.
  - rewrite IH. reflexivity.
Qed.

Lemma pop_Some (l r : list A) (x : A) : pop l = Some (x, r) -> l = r ++ [x].
Proof.
  revert r. induction l as [|h t IH]; simpl; intros r H.
  - discriminate.
  - destruct (pop t) as [[z t']|] eqn:E.
    + inversion H; subst. rewrite (IH t' eq_refl). reflexivity.
    + inversion H; subst. destruct t as [|h' t'']; [reflexivity|].
      simpl in E. destruct (pop t'') as [[? ?]|]; discriminate.
Qed.

Lemma pop_None (l : list A) : pop l = None -> l = [].
Proof.
  destruct l as [|h t]; simpl; [reflexivity|].
  destruct (pop t) as [[? ?]|]; discriminate.
Qed.

Lemma In_insert_right (x z : A) (l : list A) :
  In z (insert_right key x l) <-> z = x \/ In z l.
Proof.
  induction l as [|h t IH]; simpl.
  - intuition congruence.
  - destruct (Qltb (key x) (key h)); simpl; rewrite ?IH; intuition congruence.
Qed.

Lemma Forall_insert_right (P : A -> Prop) (x : A) (l : list A) :
  Forall P (insert_right key x l) <-> P x /\ Forall P l.
Proof.
  rewrite !Forall_forall. split.
  - intro H. split.
    + apply H, In_insert_right. now left.
    + intros z Hz. apply H, In_insert_right. now right.
  - intros [Hx Hl] z Hz. apply In_insert_right in Hz.
    destruct Hz as [->|Hz]; auto.
Qed.

Lemma insert_right_perm (x : A) (l : list A) :
  Permutation (insert_right key x l) (x :: l).
Proof.
  induction l as [|h t IH]; simpl.
  - apply Permutation_refl.
  - destruct (Qltb (key x) (key h)).
    + apply Permutation_refl.
    + eapply Permutation_trans; [apply perm_skip, IH | apply perm_swap].
Qed.

Lemma list_sort_snoc (l : list A) (x : A) :
  list_sort key (l ++ [x]) = insert_right key x (list_sort key l).
Proof.
  unfold list_sort. rewrite fold_left_app. reflexivity.
Qed.

(** The sort rearranges and loses nothing. *)
Lemma list_sort_perm (l : list A) : Permutation (list_sort key l) l.
Proof.
  induction l as [|x l IH] using rev_ind.
  - apply Permutation_refl.
  - rewrite list_sort_snoc.
    eapply Permutation_trans; [apply insert_right_perm|].
    eapply Permutation_trans; [apply perm_skip, IH|].
    apply Permutation_cons_append.
Qed.

Lemma insert_right_sorted (x : A) (l : list A) :
  StronglySorted (key_le key) l -> StronglySorted (key_le key) (insert_right key x l).
Proof.
  induction 1 as [|h t Ht IH Hall]; simpl.
  - constructor; constructor.
  - destruct (Qltb (key x) (key h)) eqn:E.
    + apply Qltb_true in E. constructor.
      * constructor; assumption.
      * constructor; [unfold key_le; lra|].
        eapply Forall_impl; [|exact Hall]. unfold key_le. intros a Ha. lra.
    + apply Qltb_false in E. constructor; [exact IH|].
      apply Forall_insert_right. split; [exact E | exact Hall].
Qed.

(** The sort leaves the keys in non-decreasing order. *)
Lemma list_sort_sorted (l : list A) : StronglySorted (key_le key) (list_sort key l).
Proof.
  induction l as [|x l IH] using rev_ind.
  - constructor.
  - rewrite list_sort_snoc. apply insert_right_sorted, IH.
Qed.

Lemma insert_right_last (x : A) (l : list A) :
  Forall (fun a => key a <= key x) l -> insert_right key x l = l ++ [x].
Proof.
  induction 1 as [|h t Hh Ht IH]; simpl.
  - reflexivity.
  - apply Qltb_false in Hh. rewrite Hh, IH. reflexivity.
Qed.

Lemma StronglySorted_snoc (R : A -> A -> Prop) (l : list A) (x : A) :
  StronglySorted R (l ++ [x]) <->
  StronglySorted R l /\ Forall (fun a => R a x) l.
Proof.
  induction l as [|h t IH]; simpl.
  - split; intros; [split; constructor | constructor; constructor].
  - split.
    + intro H. inversion H as [|? ? Ht Hall]; subst.
      apply IH in Ht. destruct Ht as [Ht Hx].
      apply Forall_app in Hall. destruct Hall as [Hall Hhx].
      inversion Hhx; subst.
      split; constructor; assumption.
    + intros [H Hx]. inversion H as [|? ? Ht Hall]; subst.
      inversion Hx; subst. constructor.
      * apply IH. split; assumption.
      * apply Forall_app. split; [assumption | constructor; [assumption | constructor]].
Qed.

(** Sorting a list that is in order changes nothing. *)
Lemma list_sort_sorted_id (l : list A) :
  StronglySorted (key_le key) l -> list_sort key l = l.
Proof.
  induction l as [|x l IH] using rev_ind; intro H.
  - reflexivity.
  - apply StronglySorted_snoc in H. destruct H as [Hl Hx].
    rewrite list_sort_snoc, (IH Hl). apply insert_right_last. exact Hx.
Qed.

(** An element younger than all of a list in [aged] order is inserted
    behind its equals, and the list stays in [aged] order. *)
Lemma insert_right_aged (stamp : A -> nat) (x : A) (l : list A) :
  StronglySorted (aged key stamp) l ->
  Forall (fun a => (stamp a < stamp x)%nat) l ->
  StronglySorted (aged key stamp) (insert_right key x l).
Proof.
  induction 1 as [|h t Ht IH Hall]; simpl; intro Hyoung.
  - constructor; constructor.
  - inversion Hyoung as [|? ? Hh Hyt]; subst.
    destruct (Qltb (key x) (key h)) eqn:E.
    + apply Qltb_true in E. constructor.
      * constructor; assumption.
      * constructor.
        { unfold aged. split; [lra | intro; exfalso; lra]. }
        eapply Forall_impl; [|exact Hall]. unfold aged.
        intros a [Ha _]. split; [lra | intro; exfalso; lra].
    + apply Qltb_false in E. constructor; [exact (IH Hyt)|].
      apply Forall_insert_right. split; [|exact Hall].
      split; [exact E | intros _; exact Hh].
Qed.

Lemma aged_key_le (stamp : A -> nat) (l : list A) :
  StronglySorted (aged key stamp) l -> StronglySorted (key_le key) l.
Proof.
  induction 1 as [|h t Ht IH Hall]; constructor; [assumption|].
  eapply Forall_impl; [|exact Hall]. intros a [Ha _]. exact Ha.
Qed.

Lemma StronglySorted_nth (R : A -> A -> Prop) (l : list A) :
  StronglySorted R l ->
  forall (i j : nat) (a b : A), (i < j)%nat ->
    nth_error l i = Some a -> nth_error l j = Some b -> R a b.
Proof.
  induction 1 as [|h t Ht IH Hall]; intros i j a b Hij Hi Hj.
  - destruct i; discriminate.
  - destruct j as [|j]; [lia|]. simpl in Hj.
    destruct i as [|i]; simpl in Hi.
    + inversion Hi; subst. apply nth_error_In in Hj.
      rewrite Forall_forall in Hall. auto.
    + apply (IH i j); [lia | assumption | assumption].
Qed.

Lemma filter_none (f : A -> bool) (l : list A) :
  Forall (fun a => f a = false) l -> filter f l = [].
Proof.
  induction 1 as [|h t Hh Ht IH]; simpl; [reflexivity|].
  rewrite Hh. exact IH.
Qed.

Lemma filter_all (f : A -> bool) (l : list A) :
  Forall (fun a => f a = true) l -> filter f l = l.
Proof.
  induction 1 as [|h t Hh Ht IH]; simpl; [reflexivity|].
  rewrite Hh, IH. reflexivity.
Qed.

(** Inserting into a list in order: the elements with a key up to the new
    one, the new element, the elements with a greater key. *)
Lemma insert_right_split (x : A) (l : list A) :
  StronglySorted (key_le key) l ->
  insert_right key x l =
  filter (fun a => Qle_bool (key a) (key x)) l
  ++ x :: filter (fun a => Qltb (key x) (key a)) l.
Proof.
  induction 1 as [|h t Ht IH Hall]; simpl; [reflexivity|].
  destruct (Qltb (key x) (key h)) eqn:E.
  - assert (Hgt : Forall (fun a => key x < key a) (h :: t)).
    { apply Qltb_true in E. constructor; [exact E|].
      eapply Forall_impl; [|exact Hall]. unfold key_le. intros a Ha. lra. }
    inversion Hgt as [|? ? Hh Hgt']; subst.
    assert (Eh : Qle_bool (key h) (key x) = false).
    { apply Qltb_true in Hh. unfold Qltb in Hh. now apply negb_true_iff in Hh. }
    rewrite Eh, filter_none, filter_all; [reflexivity | |].
    + eapply Forall_impl; [|exact Hgt']. intros a Ha. now apply Qltb_true.
    + eapply Forall_impl; [|exact Hgt']. intros a Ha.
      apply Qltb_true in Ha. unfold Qltb in Ha. now apply negb_true_iff in Ha.
  - assert (Eh : Qle_bool (key h) (key x) = true).
    { unfold Qltb in E. now apply negb_false_iff in E. }
    rewrite Eh, IH. reflexivity.
Qed.

End ListFacts.

(* ================================================================== *)
(** ** The marker list of a session *)
(* ================================================================== *)

Section Session.

Context {tk : Toolkit}.

Lemma store_inv_frame (s s' : MainWindow) :
  kda_markers s' = kda_markers s -> next_handle s' = next_handle s ->
  store_inv s -> store_inv s'.
Proof.
  unfold store_inv. intros -> ->. exact (fun H => H).
Qed.

Lemma store_inv_init : store_inv init.
Proof.
  split; constructor.
Qed.

(** With an image loaded, an answered dialog adds the marker by one
    insertion into the list as it is. *)
Lemma add_kda_marker_insert (s : MainWindow) (scene_y val : Q) :
  store_inv s -> pixmap_item s <> None ->
  kda_markers (add_kda_marker s scene_y val true) =
  insert_right y (mkMarker scene_y val (next_handle s) (S (next_handle s)))
               (kda_markers s).
Proof.
  intros [Hs _] Hp. unfold add_kda_marker.
  destruct (pixmap_item s); [|congruence]. simpl.
  rewrite list_sort_snoc, list_sort_sorted_id; [reflexivity|].
  exact (aged_key_le Hs).
Qed.

Lemma store_inv_add (s : MainWindow) (scene_y val : Q) (ok : bool) :
  store_inv s -> store_inv (add_kda_marker s scene_y val ok).
Proof.
  intro H. destruct ok; [|exact H].
  destruct (pixmap_item s) as [it|] eqn:Hp.
  - pose proof (@add_kda_marker_insert s scene_y val H) as Hk.
    rewrite Hp in Hk. specialize (Hk ltac:(discriminate)).
    destruct H as [Hs Hf]. unfold store_inv. rewrite Hk.
    unfold add_kda_marker. rewrite Hp. simpl. split.
    + apply insert_right_aged; [exact Hs | exact Hf].
    + rewrite Forall_insert_right. split; [simpl; lia|].
      eapply Forall_impl; [|exact Hf]. simpl. intros a Ha. lia.
  - unfold add_kda_marker. rewrite Hp. exact H.
Qed.

Lemma store_inv_undo (s : MainWindow) :
  store_inv s -> store_inv (undo_last_kda s).
Proof.
  intros [Hs Hf]. unfold undo_last_kda.
  destruct (pop (kda_markers s)) as [[last rest]|] eqn:E; [|split; assumption].
  apply pop_Some in E. rewrite E in Hs, Hf.
  apply StronglySorted_snoc in Hs. apply Forall_app in Hf.
  split; simpl; tauto.
Qed.

Lemma store_inv_crop (s s' : MainWindow) (r : QRect) :
  crop_region s r = Some s' -> store_inv s -> store_inv s'.
Proof.
  unfold crop_region. intros E H.
  destruct (pixmap_item s) as [[h pos]|]; [|discriminate].
  destruct (current_pixmap s); [|discriminate].
  inversion E; subst. exact H.
Qed.

Lemma store_inv_step (s : MainWindow) (e : event) :
  store_inv s -> store_inv (step s e).
Proof.
  intro H. destruct e as [path pm| | | | |b pos val ok|pos|pos]; simpl.
  - unfold open_image. destruct path; [exact H|].
    destruct (pm_isNull pm); [exact H|]. unfold store_inv; simpl. split; constructor.
  - unfold enable_mark_mode. destruct (current_pixmap s); exact H.
  - unfold enable_crop_mode. destruct (current_pixmap s); exact H.
  - apply store_inv_undo, H.
  - unfold store_inv; simpl. split; constructor.
  - unfold mousePressEvent.
    destruct b; try exact H.
    destruct (mode (view s)) as [[|]|]; try exact H.
    + destruct (crop_callback (view s)); exact H.
    + destruct (mark_callback (view s)); [apply store_inv_add|]; exact H.
  - unfold mouseMoveEvent. destruct (rubberBand (view s)) as [rb|]; [|exact H].
    destruct (isVisible rb); exact H.
  - unfold mouseReleaseEvent.
    destruct (rubberBand (view s)) as [rb|]; [|exact H].
    destruct (isVisible rb); [|exact H].
    destruct (crop_callback (view s)); [|exact H].
    match goal with |- context [crop_region ?a ?b] =>
      destruct (crop_region a b) as [s2|] eqn:E end; [|exact H].
    apply store_inv_crop in E; [exact E | exact H].
Qed.

Lemma store_inv_run (evs : list event) (s : MainWindow) :
  store_inv s -> store_inv (run evs s).
Proof.
  revert s. induction evs as [|e evs IH]; intros s H; simpl.
  - exact H.
  - apply IH, store_inv_step, H.
Qed.

(** [undo_last_kda] takes the marker at the end of the list, whichever
    was placed last. *)
Lemma undo_last_kda_pops (s : MainWindow) (rest : list Marker) (last : Marker) :
  kda_markers s = rest ++ [last] -> kda_markers (undo_last_kda s) = rest.
Proof.
  intro H. unfold undo_last_kda. rewrite H, pop_snoc. reflexivity.
Qed.

(** With the list in order, the marker that [undo_last_kda] takes has the
    greatest [y] of all. *)
Lemma undo_takes_greatest (s : MainWindow) (rest : list Marker) (last : Marker) :
  store_inv s -> pop (kda_markers s) = Some (last, rest) ->
  kda_markers (undo_last_kda s) = rest
  /\ Forall (fun m => y m <= y last) rest.
Proof.
  intros [Hs _] E. split.
  - unfold undo_last_kda. rewrite E. reflexivity.
  - apply pop_Some in E. rewrite E in Hs.
    apply StronglySorted_snoc in Hs. destruct Hs as [_ Hall].
    eapply Forall_impl; [|exact Hall]. intros a [Ha _]. exact Ha.
Qed.

(** C3. After any sequence of events (markers placed, undone, cleared,
    images opened, crops made) the marker list is non-decreasing in [y];
    two markers with equal [y] stand in the order they were placed in (the
    one placed earlier, which has the smaller line handle, comes first);
    and a placement puts the new marker behind every marker with a [y] up
    to its own and in front of the others, which keep their order. *)
Theorem marker_list_sorted_stable (evs : list event) :
  let s := run evs init in
  StronglySorted (fun a b => y a <= y b) (kda_markers s)
  /\ (forall (i j : nat) (a b : Marker), (i < j)%nat ->
        nth_error (kda_markers s) i = Some a ->
        nth_error (kda_markers s) j = Some b ->
        y a == y b -> (line a < line b)%nat)
  /\ (forall scene_y val : Q, pixmap_item s <> None ->
        kda_markers (add_kda_marker s scene_y val true) =
        filter (fun m => Qle_bool (y m) scene_y) (kda_markers s)
        ++ mkMarker scene_y val (next_handle s) (S (next_handle s))
           :: filter (fun m => Qltb scene_y (y m)) (kda_markers s)).
Proof.
  intro s. assert (H : store_inv s) by apply store_inv_run, store_inv_init.
  pose proof H as [Hs Hf]. split; [|split].
  - exact (aged_key_le Hs).
  - intros i j a b Hij Hi Hj Hy.
    destruct (StronglySorted_nth Hs Hij Hi Hj) as [_ Hage].
    apply Hage. rewrite Hy. apply Qle_refl.
  - intros scene_y val Hp.
    rewrite (add_kda_marker_insert scene_y val H Hp).
    apply insert_right_split. exact (aged_key_le Hs).
Qed.

End Session.

(** The markers at 50 and at 100 are in the list; a third one placed at
    50 goes between them. *)
Lemma marker_list_sorted_stable_witness :
  kda_markers (add_kda_marker (tk := plain_toolkit) two_markers 50 25 true) =
  [mkMarker 50 100 5%nat 6%nat; mkMarker 50 25 7%nat 8%nat;
   mkMarker 100 70 3%nat 4%nat].
Proof.
  pose proof (marker_list_sorted_stable (tk := plain_toolkit)
    [OpenImage gel_path gel; EnableMarkMode; click_at 100 70; click_at 50 100])
    as H.
  destruct H as (_ & _ & H).
  specialize (H 50 25 ltac:(vm_compute; discriminate)).
  vm_compute in H. vm_compute. exact H.
Defined.

(** C1 (the code departs from it). A marker is placed at 100, then one at
    50; Undo Last kDa then removes the marker at 100, the first one placed,
    and the store is left with the marker at 50. *)
Theorem undo_removes_bottom_marker :
  kda_markers two_markers =
  [mkMarker 50 100 5%nat 6%nat; mkMarker 100 70 3%nat 4%nat]
  /\ kda_markers (undo_last_kda two_markers) = [mkMarker 50 100 5%nat 6%nat]
  /\ map fst (scene (undo_last_kda two_markers)) = [2; 5; 6]%nat.
Proof.
  vm_compute. repeat split; reflexivity.
Qed.

(* ================================================================== *)
(** ** Crop *)
(* ================================================================== *)

Section Crop.

Context {tk : Toolkit}.

Lemma inside_rect_iff (r : QRect) (m : Marker) :
  inside_rect r m = true <->
  inject_Z (top r) <= y m /\ y m <= inject_Z (bottom r).
Proof.
  unfold inside_rect. rewrite andb_true_iff, !Qle_bool_iff. reflexivity.
Qed.

Lemma tick_positions_preview (lm : Q) (r : QRect) (ms : list Marker) :
  tick_positions (flat_map (preview_tick lm r) ms) =
  map (fun m => y m - inject_Z (top r)) ms.
Proof.
  induction ms as [|m ms IH]; simpl; [reflexivity|].
  rewrite IH. reflexivity.
Qed.

(** What [crop_region] returns when it returns. *)
Lemma crop_region_Some (s s' : MainWindow) (r : QRect) :
  crop_region s r = Some s' ->
  exists (h : handle) (pos : QPointF) (pm : QPixmap),
    pixmap_item s = Some (h, pos) /\ current_pixmap s = Some pm
    /\ s' = show_cropped_with_ticks s
              (pixmap_copy pm (translated r (QPoint_neg (toPoint pos))))
              (filter (inside_rect r) (kda_markers s)) r.
Proof.
  unfold crop_region. intro E.
  destruct (pixmap_item s) as [[h pos]|]; [|discriminate].
  destruct (current_pixmap s) as [pm|]; [|discriminate].
  inversion E; subst. exists h, pos, pm. auto.
Qed.

(** C2. A crop keeps exactly the markers with
    [top <= y <= bottom] of the selection, both ends included, in their
    order, and draws each at its [y] minus the selection's [top]. *)
Theorem crop_keeps_and_rebases (s s' : MainWindow) (scene_rect : QRect) :
  crop_region s scene_rect = Some s' ->
  exists (pv : Preview) (kept : list Marker),
    _crop_window s' = Some pv
    /\ kept = filter (inside_rect scene_rect) (kda_markers s)
    /\ (forall m : Marker,
          In m kept <->
          In m (kda_markers s)
          /\ inject_Z (top scene_rect) <= y m
          /\ y m <= inject_Z (bottom scene_rect))
    /\ pv_items pv = flat_map (preview_tick 60 scene_rect) kept
    /\ tick_positions (pv_items pv) =
       map (fun m => y m - inject_Z (top scene_rect)) kept.
Proof.
  intro E. apply crop_region_Some in E.
  destruct E as (h & pos & pm & _ & _ & ->).
  eexists. eexists. split; [reflexivity|]. split; [reflexivity|].
  split; [|split].
  - intro m. rewrite filter_In, inside_rect_iff. reflexivity.
  - reflexivity.
  - simpl. apply tick_positions_preview.
Qed.

(** No event but the release of a drag touches the preview window. *)
Lemma preview_kept (s : MainWindow) (e : event) :
  (forall pos, e <> MouseRelease pos) ->
  _crop_window (step s e) = _crop_window s.
Proof.
  intro Hrel. destruct e as [path pm| | | | |b pos val ok|pos|pos]; simpl.
  - unfold open_image. destruct path; [reflexivity|].
    destruct (pm_isNull pm); reflexivity.
  - unfold enable_mark_mode. destruct (current_pixmap s); reflexivity.
  - unfold enable_crop_mode. destruct (current_pixmap s); reflexivity.
  - unfold undo_last_kda. destruct (pop (kda_markers s)) as [[? ?]|]; reflexivity.
  - reflexivity.
  - unfold mousePressEvent. destruct b; try reflexivity.
    destruct (mode (view s)) as [[|]|]; try reflexivity.
    + destruct (crop_callback (view s)); reflexivity.
    + destruct (mark_callback (view s)); [|reflexivity].
      unfold add_kda_marker. destruct ok; [|reflexivity].
      destruct (pixmap_item s); reflexivity.
  - unfold mouseMoveEvent. destruct (rubberBand (view s)) as [rb|]; [|reflexivity].
    destruct (isVisible rb); reflexivity.
  - exfalso. exact (Hrel pos eq_refl).
Qed.

(** C7. A crop leaves the source image, the marker list and the scene of
    the window as they were, and so does the release of the drag that
    starts it; the preview it builds is then out of reach of every later
    change to the image or to the markers. *)
Theorem crop_leaves_session (s s' : MainWindow) (scene_rect : QRect) :
  crop_region s scene_rect = Some s' ->
  current_pixmap s' = current_pixmap s
  /\ kda_markers s' = kda_markers s
  /\ scene s' = scene s
  /\ pixmap_item s' = pixmap_item s
  /\ (forall pos : QPoint,
        let s2 := mouseReleaseEvent s pos in
        current_pixmap s2 = current_pixmap s
        /\ kda_markers s2 = kda_markers s
        /\ scene s2 = scene s)
  /\ (forall e : event, (forall pos, e <> MouseRelease pos) ->
        _crop_window (step s' e) = _crop_window s').
Proof.
  intro E. apply crop_region_Some in E.
  destruct E as (h & pos & pm & Hi & Hp & ->).
  repeat (split; [reflexivity|]). split.
  - intros p s2. subst s2. unfold mouseReleaseEvent.
    destruct (rubberBand (view s)) as [rb|]; [|auto].
    destruct (isVisible rb); [|auto].
    destruct (crop_callback (view s)); [|auto].
    unfold crop_region. simpl. rewrite Hi, Hp. auto.
  - intros e He. apply preview_kept, He.
Qed.

Ltac armed :=
  unfold armed_inv in *; simpl in *;
  repeat match goal with H : _ = _ |- _ => rewrite H in * end;
  intuition congruence.

Lemma armed_inv_init : armed_inv init.
Proof.
  unfold armed_inv, init; simpl. repeat split; intros; congruence.
Qed.

Lemma armed_inv_step (s : MainWindow) (e : event) :
  armed_inv s -> armed_inv (step s e).
Proof.
  intro H.
  destruct e as [path pm| | | | |b pos val ok|pos|pos]; simpl.
  - unfold open_image. destruct path; [exact H|].
    destruct (pm_isNull pm); [exact H|]. armed.
  - unfold enable_mark_mode. destruct (current_pixmap s) eqn:E; [|exact H].
    armed.
  - unfold enable_crop_mode. destruct (current_pixmap s) eqn:E; [|exact H].
    armed.
  - unfold undo_last_kda. destruct (pop (kda_markers s)) as [[? ?]|]; exact H.
  - exact H.
  - unfold mousePressEvent. destruct b; try (exact H).
    destruct (mode (view s)) as [[|]|] eqn:Em; try (exact H).
    + destruct (crop_callback (view s)) eqn:Ec; [|exact H]. armed.
    + destruct (mark_callback (view s)); [|exact H].
      unfold add_kda_marker. destruct ok; [|exact H].
      destruct (pixmap_item s); exact H.
  - unfold mouseMoveEvent. destruct (rubberBand (view s)) as [rb|]; [|exact H].
    destruct (isVisible rb); exact H.
  - unfold mouseReleaseEvent. destruct (rubberBand (view s)) as [rb|]; [|exact H].
    destruct (isVisible rb); [|exact H].
    destruct (crop_callback (view s)) eqn:Ec.
    + unfold crop_region; simpl.
      destruct (pixmap_item s) as [[h p]|] eqn:Ei; [|armed].
      destruct (current_pixmap s) eqn:Ep; armed.
    + armed.
Qed.

Lemma armed_inv_run (evs : list event) (s : MainWindow) :
  armed_inv s -> armed_inv (run evs s).
Proof.
  revert s. induction evs as [|e evs IH]; intros s H; simpl.
  - exact H.
  - apply IH, armed_inv_step, H.
Qed.

End Crop.

(** A marker at 120 and one at 5, a selection from 100 to 200: the
    preview has one tick, at 20. *)
Lemma crop_keeps_and_rebases_witness :
  exists (s' : MainWindow) (pv : Preview),
    crop_region (tk := plain_toolkit) marked_120_5 rows_100_200 = Some s'
    /\ _crop_window s' = Some pv
    /\ tick_positions (pv_items pv) = [120 - 100].
Proof.
  destruct (crop_region (tk := plain_toolkit) marked_120_5 rows_100_200)
    as [s'|] eqn:E; [|vm_compute in E; discriminate].
  destruct (@crop_keeps_and_rebases plain_toolkit _ _ _ E) as (pv & kept & Hw & Hk & _ & _ & Ht).
  exists s', pv. split; [reflexivity|]. split; [exact Hw|].
  rewrite Ht, Hk. vm_compute. reflexivity.
Defined.

(** The same crop leaves the two markers and the image in the window. *)
Lemma crop_leaves_session_witness :
  exists s' : MainWindow,
    crop_region (tk := plain_toolkit) marked_120_5 rows_100_200 = Some s'
    /\ current_pixmap s' = Some gel
    /\ map y (kda_markers s') = [5; 120].
Proof.
  destruct (crop_region (tk := plain_toolkit) marked_120_5 rows_100_200)
    as [s'|] eqn:E; [|vm_compute in E; discriminate].
  destruct (@crop_leaves_session plain_toolkit _ _ _ E) as (Hp & Hk & _).
  exists s'. split; [reflexivity|]. rewrite Hp, Hk.
  split; vm_compute; reflexivity.
Defined.

(* ================================================================== *)
(** ** Coordinates, tick layout and aborted commands *)
(* ================================================================== *)

Lemma toPoint_placement (m : Z) : toPoint (placement m) = mkQPoint m 0.
Proof.
  unfold toPoint, placement; simpl.
  rewrite qRound_inject_Z. change 0 with (inject_Z 0).
  rewrite qRound_inject_Z. reflexivity.
Qed.

Section Layout.

Context {tk : Toolkit}.

(** C6. With an image loaded, an answered placement at [scene_y] adds to
    the scene a tick from [tickStart] to [tickEnd] and a label at
    [labelOrigin] with: [tickEnd.x = left_margin - 2],
    [tickStart.x = tickEnd.x - 20] (the tick length), both at [scene_y],
    [labelOrigin.x = tickStart.x - 6 - width] (6 is the label gap) and
    [labelOrigin.y = scene_y - height / 2], for the label's size
    [(width, height)]. *)
Theorem marker_tick_layout (s : MainWindow) (scene_y val : Q) :
  pixmap_item s <> None ->
  exists tickStart tickEnd labelOrigin : QPointF,
    scene (add_kda_marker s scene_y val true) =
    scene s
    ++ [ (next_handle s,
          LineItem (fx tickStart) (fy tickStart) (fx tickEnd) (fy tickEnd));
         (S (next_handle s), TextItem val labelOrigin) ]
    /\ fx tickEnd = inject_Z (left_margin s) - 2
    /\ fx tickStart = fx tickEnd - 20
    /\ fy tickStart = scene_y /\ fy tickEnd = scene_y
    /\ fx labelOrigin = fx tickStart - 6 - fst (label_size val)
    /\ fy labelOrigin = scene_y - snd (label_size val) / 2.
Proof.
  intro Hp. unfold add_kda_marker.
  destruct (pixmap_item s); [|congruence].
  exists (mkQPointF (inject_Z (left_margin s) - 2 - 20) scene_y),
         (mkQPointF (inject_Z (left_margin s) - 2) scene_y).
  eexists. simpl. repeat split.
Qed.

(** C9. An aborted command leaves the window as it was: [open_image] when
    no path was chosen or when the file does not decode, [add_kda_marker]
    when the dialog was cancelled, and with it the press in mark mode that
    asked.  An image that decodes replaces image, scene and markers. *)
Theorem aborted_commands_change_nothing (s : MainWindow) :
  (forall pm : QPixmap, open_image s String.EmptyString pm = s)
  /\ (forall (path : String.string) (pm : QPixmap),
        pm_isNull pm = true -> open_image s path pm = s)
  /\ (forall scene_y val : Q, add_kda_marker s scene_y val false = s)
  /\ (forall (b : MouseButton) (pos : QPoint) (val : Q),
        mode (view s) = Some mark -> mousePressEvent s b pos val false = s)
  /\ (forall (path : String.string) (pm : QPixmap),
        path <> String.EmptyString -> pm_isNull pm = false ->
        current_pixmap (open_image s path pm) = Some pm
        /\ kda_markers (open_image s path pm) = []
        /\ scene (open_image s path pm) =
           [(next_handle s, PixmapItem pm (placement (left_margin s)))]).
Proof.
  split; [reflexivity|]. split; [|split; [|split]].
  - intros path pm Hn. unfold open_image. rewrite Hn. destruct path; reflexivity.
  - reflexivity.
  - intros b pos val Hm. unfold mousePressEvent. rewrite Hm.
    destruct b; try reflexivity. destruct (mark_callback (view s)); reflexivity.
  - intros path pm Hpath Hn. unfold open_image.
    destruct path; [congruence|]. rewrite Hn. simpl. auto.
Qed.

End Layout.

(** A margin of 60, a marker at 50, a label of 30 by 12: the tick runs
    from (38, 50) to (58, 50) and the label is at (2, 44). *)
Lemma marker_tick_layout_witness :
  exists labelOrigin : QPointF,
    scene (add_kda_marker (tk := plain_toolkit) opened 50 70 true) =
    scene opened
    ++ [ (3%nat, LineItem 38 50 58 50); (4%nat, TextItem 70 labelOrigin) ]
    /\ fx labelOrigin == 2 /\ fy labelOrigin == 44.
Proof.
  destruct (@marker_tick_layout plain_toolkit opened 50 70
              ltac:(vm_compute; discriminate))
    as (t0 & t1 & lo & Hs & H1 & H0 & Hy0 & Hy1 & Hx & Hy).
  exists lo. split.
  - rewrite Hs. destruct t0 as [a b], t1 as [c d]. simpl in *. subst.
    reflexivity.
  - rewrite Hx, Hy, H0, H1. split; vm_compute; reflexivity.
Defined.

(** With two markers in the window, a file that does not decode and a
    cancelled placement both leave the window as it is. *)
Lemma aborted_commands_change_nothing_witness :
  open_image (tk := plain_toolkit) two_markers gel_path [] = two_markers
  /\ mousePressEvent (tk := plain_toolkit) two_markers LeftButton
       (mkQPoint 30 80) 55 false = two_markers.
Proof.
  destruct (@aborted_commands_change_nothing plain_toolkit two_markers)
    as (_ & Hopen & _ & Hpress & _).
  split.
  - apply Hopen. reflexivity.
  - apply Hpress. vm_compute. reflexivity.
Defined.

(* ================================================================== *)
(** ** Pointer modes and the selection rectangle *)
(* ================================================================== *)

Section Modes.

Context {tk : Toolkit}.

Lemma run_app (a b : list event) (s : MainWindow) :
  run (a ++ b) s = run b (run a s).
Proof.
  unfold run. apply fold_left_app.
Qed.

Lemma press_starts_drag (s : MainWindow) (p : QPoint) (val : Q) (ok : bool) :
  armed_inv s -> mode (view s) = Some crop ->
  dragging (mousePressEvent s LeftButton p val ok)
  /\ mode (view (mousePressEvent s LeftButton p val ok)) = Some crop.
Proof.
  intros (Hc & _ & Hcb & _ & Hpi) Hm. unfold mousePressEvent.
  rewrite Hm, (Hc Hm). unfold dragging, band_visible; simpl.
  pose proof (Hcb (Hc Hm)). auto 6.
Qed.

Lemma move_keeps_drag (s : MainWindow) (p : QPoint) :
  dragging s ->
  dragging (mouseMoveEvent s p)
  /\ mode (view (mouseMoveEvent s p)) = mode (view s).
Proof.
  unfold dragging, band_visible, mouseMoveEvent. intros (Hb & Hcb & Hi & Hp).
  destruct (rubberBand (view s)) as [rb|]; [|discriminate].
  rewrite Hb. simpl. auto.
Qed.

Lemma moves_keep_drag (moves : list QPoint) (s : MainWindow) :
  dragging s ->
  dragging (run (map MouseMove moves) s)
  /\ mode (view (run (map MouseMove moves) s)) = mode (view s).
Proof.
  revert s. induction moves as [|p moves IH]; intros s H; simpl.
  - auto.
  - destruct (move_keeps_drag p H) as [Hd Hm].
    destruct (IH _ Hd) as [Hd' Hm']. split; [exact Hd' | congruence].
Qed.

Lemma release_ends_drag (s : MainWindow) (p : QPoint) :
  dragging s -> mode (view (mouseReleaseEvent s p)) = None.
Proof.
  unfold dragging, band_visible, mouseReleaseEvent. intros (Hb & Hcb & Hi & Hp).
  destruct (rubberBand (view s)) as [rb|]; [|discriminate].
  rewrite Hb, Hcb. unfold crop_region; simpl.
  destruct (pixmap_item s) as [[h pos]|]; [|congruence].
  destruct (current_pixmap s); [|congruence].
  reflexivity.
Qed.

Lemma add_kda_marker_view (s : MainWindow) (scene_y val : Q) (ok : bool) :
  view (add_kda_marker s scene_y val ok) = view s.
Proof.
  unfold add_kda_marker. destruct ok; [|reflexivity].
  destruct (pixmap_item s); reflexivity.
Qed.

Lemma mark_press_keeps_mode (s : MainWindow) (b : MouseButton) (p : QPoint)
    (val : Q) (ok : bool) :
  mode (view s) = Some mark ->
  mode (view (mousePressEvent s b p val ok)) = Some mark.
Proof.
  intro Hm. unfold mousePressEvent. rewrite Hm.
  destruct b; try exact Hm.
  destruct (mark_callback (view s)); [|exact Hm].
  rewrite add_kda_marker_view. exact Hm.
Qed.

Lemma mark_presses_keep_mode
    (clicks : list (MouseButton * QPoint * Q * bool)) (s : MainWindow) :
  mode (view s) = Some mark ->
  mode (view (run (map press_of clicks) s)) = Some mark.
Proof.
  revert s. induction clicks as [|[[[b p] v] ok] clicks IH]; intros s Hm; simpl.
  - exact Hm.
  - apply IH, mark_press_keeps_mode, Hm.
Qed.

Lemma mark_press_adds_marker (s : MainWindow) (p : QPoint) (val : Q) :
  armed_inv s -> mode (view s) = Some mark ->
  List.length (kda_markers (mousePressEvent s LeftButton p val true)) =
  S (List.length (kda_markers s)).
Proof.
  intros (_ & Hk & _ & Hmb & Hpi) Hm. unfold mousePressEvent.
  rewrite Hm, (Hk Hm). unfold add_kda_marker.
  destruct (pixmap_item s); [|exfalso; apply Hpi; auto]. simpl.
  rewrite (Permutation_length (list_sort_perm y _)), length_app. simpl. lia.
Qed.

(** From mark mode, an event that leaves the mode is the choice of crop
    mode, or the release of a drag whose band is still shown. *)
Lemma leaving_mark_mode (s : MainWindow) (e : event) :
  mode (view s) = Some mark -> mode (view (step s e)) <> Some mark ->
  e = EnableCropMode
  \/ (exists p : QPoint, e = MouseRelease p /\ band_visible s = true).
Proof.
  intros Hm Hne.
  destruct e as [path pm| | | | |b pos val ok|pos|pos]; simpl in Hne.
  - exfalso. apply Hne. unfold open_image. destruct path; [exact Hm|].
    destruct (pm_isNull pm); exact Hm.
  - exfalso. apply Hne. unfold enable_mark_mode.
    destruct (current_pixmap s); [reflexivity | exact Hm].
  - now left.
  - exfalso. apply Hne. unfold undo_last_kda.
    destruct (pop (kda_markers s)) as [[? ?]|]; exact Hm.
  - exfalso. apply Hne. exact Hm.
  - exfalso. apply Hne. apply mark_press_keeps_mode, Hm.
  - exfalso. apply Hne. unfold mouseMoveEvent.
    destruct (rubberBand (view s)) as [rb|]; [|exact Hm].
    destruct (isVisible rb); exact Hm.
  - right. exists pos. split; [reflexivity|].
    unfold band_visible. unfold mouseReleaseEvent in Hne.
    destruct (rubberBand (view s)) as [rb|]; [|congruence].
    destruct (isVisible rb); [reflexivity | congruence].
Qed.

(** C8 (as amended). In any state the program reaches: from crop mode, a
    press of the left button, any moves and the release leave no mode
    set; from mark mode, presses of the mouse in any number keep mark
    mode, each answered press of the left button adding one marker; and
    an event that takes the window out of mark mode is the choice of crop
    mode or the release of a crop drag begun before mark mode was chosen
    (its band still shown). *)
Theorem crop_one_shot_mark_persistent (evs : list event) :
  let s := run evs init in
  (mode (view s) = Some crop ->
     forall (p0 p1 : QPoint) (val : Q) (ok : bool) (moves : list QPoint),
       mode (view (run (MousePress LeftButton p0 val ok
                          :: map MouseMove moves ++ [MouseRelease p1]) s))
       = None)
  /\ (mode (view s) = Some mark ->
       forall clicks : list (MouseButton * QPoint * Q * bool),
         mode (view (run (map press_of clicks) s)) = Some mark)
  /\ (mode (view s) = Some mark ->
       forall (p : QPoint) (val : Q),
         List.length (kda_markers (mousePressEvent s LeftButton p val true)) =
         S (List.length (kda_markers s)))
  /\ (mode (view s) = Some mark ->
       forall e : event, mode (view (step s e)) <> Some mark ->
         e = EnableCropMode
         \/ (exists p : QPoint, e = MouseRelease p /\ band_visible s = true)).
Proof.
  intro s. assert (Ha : armed_inv s) by apply armed_inv_run, armed_inv_init.
  split; [|split; [|split]].
  - intros Hm p0 p1 val ok moves.
    change (MousePress LeftButton p0 val ok
              :: map MouseMove moves ++ [MouseRelease p1])
      with ([MousePress LeftButton p0 val ok]
              ++ map MouseMove moves ++ [MouseRelease p1]).
    rewrite !run_app. simpl.
    destruct (press_starts_drag p0 val ok Ha Hm) as [Hd _].
    destruct (moves_keep_drag moves Hd) as [Hd' _].
    apply release_ends_drag, Hd'.
  - intros Hm clicks. apply mark_presses_keep_mode, Hm.
  - intros Hm p val. apply mark_press_adds_marker; assumption.
  - intros Hm e. apply leaving_mark_mode, Hm.
Qed.

(** C10 (as amended). Whichever way the drag went, the rectangle of the
    drag is normalized to a width and a height that are not negative, and
    so are the width and the height of the rectangle that the release
    hands to the crop; with inclusive corners that is
    [left <= right + 1] and [top <= bottom + 1], and [left <= right]
    (resp. [top <= bottom]) holds exactly when the width (resp. height)
    is at least 1. *)
Theorem release_rect_normalized (v : CanvasView) (pos : QPoint) :
  let drag := normalized (QRect_of_points (origin v) pos) in
  let r := release_scene_rect v pos in
  (0 <= width drag)%Z /\ (0 <= height drag)%Z
  /\ (0 <= width r)%Z /\ (0 <= height r)%Z
  /\ (left r <= right r + 1)%Z /\ (top r <= bottom r + 1)%Z
  /\ ((left r <= right r)%Z <-> (1 <= width r)%Z)
  /\ ((top r <= bottom r)%Z <-> (1 <= height r)%Z).
Proof.
  intros drag r.
  destruct (normalized_size (QRect_of_points (origin v) pos)) as [Hw Hh].
  assert (Hr : (0 <= width r)%Z /\ (0 <= height r)%Z).
  { subst r. unfold release_scene_rect.
    apply toRect_size; apply boundingRect_size. }
  destruct Hr as [Hrw Hrh].
  unfold width, height, left, right, top, bottom in *.
  repeat split; try assumption; lia.
Qed.

End Modes.

(** With the image open and crop mode chosen, a drag from (70, 20) over
    (80, 40) to (90, 60) ends with no mode set. *)
Lemma crop_one_shot_mark_persistent_witness :
  mode (view (run (tk := plain_toolkit)
                [MousePress LeftButton (mkQPoint 70 20) 0 false;
                 MouseMove (mkQPoint 80 40); MouseRelease (mkQPoint 90 60)]
                (run (tk := plain_toolkit)
                   [OpenImage gel_path gel; EnableCropMode]
                   (init (tk := plain_toolkit))))) = None.
Proof.
  destruct (crop_one_shot_mark_persistent (tk := plain_toolkit)
              [OpenImage gel_path gel; EnableCropMode]) as (H & _).
  exact (H eq_refl (mkQPoint 70 20) (mkQPoint 90 60) 0 false [mkQPoint 80 40]).
Defined.

(** C8 (as stated, refuted). A crop drag is begun and mark mode is then
    chosen; the window is in mark mode with the band shown, and the
    release of the mouse, which is no choice of a tool, leaves no mode
    set. *)
Lemma release_leaves_mark_mode :
  mode (view drag_then_mark) = Some mark
  /\ band_visible drag_then_mark = true
  /\ mode (view (step (tk := plain_toolkit) drag_then_mark
                    (MouseRelease (mkQPoint 90 60)))) = None.
Proof.
  vm_compute. repeat split; reflexivity.
Qed.

(** C10 (as stated, refuted). A drag that ends one pixel to the left of
    where it began has a rectangle of width 0; the rectangle handed to the
    crop is empty, with its right edge left of its left edge and its
    bottom above its top. *)
Lemma one_pixel_drag_rect :
  width (normalized (QRect_of_points (origin (view drag_begun))
                                     (mkQPoint 69 60))) = 0%Z
  /\ release_scene_rect (view drag_begun) (mkQPoint 69 60)
     = mkQRect 0 0 (-1) (-1)
  /\ (right (release_scene_rect (view drag_begun) (mkQPoint 69 60))
      < left (release_scene_rect (view drag_begun) (mkQPoint 69 60)))%Z
  /\ (bottom (release_scene_rect (view drag_begun) (mkQPoint 69 60))
      < top (release_scene_rect (view drag_begun) (mkQPoint 69 60)))%Z.
Proof.
  vm_compute. repeat split; reflexivity.
Qed.

(* ================================================================== *)
(** ** Further properties: the scene and the store *)
(* ================================================================== *)

Lemma Permutation_filter_both (A : Type) (f : A -> bool) (l l' : list A) :
  Permutation l l' -> Permutation (filter f l) (filter f l').
Proof.
  induction 1 as [|x l l' H IH|x x' l|l l' l'' H1 IH1 H2 IH2]; simpl.
  - constructor.
  - destruct (f x); [constructor|]; exact IH.
  - destruct (f x), (f x'); try apply Permutation_refl. apply perm_swap.
  - eapply Permutation_trans; eassumption.
Qed.

Lemma removeItem_handles (sc : Scene) (h : handle) :
  map fst (removeItem sc h) = filter (fun k => negb (Nat.eqb k h)) (map fst sc).
Proof.
  induction sc as [|[k i] sc IH]; simpl; [reflexivity|].
  destruct (Nat.eqb k h); simpl; rewrite IH; reflexivity.
Qed.

Lemma removeItem_NoDup (sc : Scene) (h : handle) :
  NoDup (map fst sc) -> NoDup (map fst (removeItem sc h)).
Proof.
  intro H. rewrite removeItem_handles. apply NoDup_filter, H.
Qed.

Lemma removeItem_Forall (P : handle -> Prop) (sc : Scene) (h : handle) :
  Forall P (map fst sc) -> Forall P (map fst (removeItem sc h)).
Proof.
  intro H. rewrite removeItem_handles. rewrite Forall_forall in *.
  intros k Hk. apply filter_In in Hk. apply H, Hk.
Qed.

(** Removing a handle that no item has changes nothing. *)
Lemma removeItem_absent (sc : Scene) (h : handle) :
  ~ In h (map fst sc) -> removeItem sc h = sc.
Proof.
  induction sc as [|[k i] sc IH]; simpl; intro Hn; [reflexivity|].
  destruct (Nat.eqb_spec k h) as [->|Hne]; simpl.
  - exfalso. apply Hn. now left.
  - rewrite IH; [reflexivity|]. intro Hin. apply Hn. now right.
Qed.

(** With distinct handles, removing the handle of an item removes that
    item and no other. *)
Lemma removeItem_perm (sc X : Scene) (h : handle) (i : Item) :
  Permutation sc ((h, i) :: X) -> NoDup (map fst sc) ->
  Permutation (removeItem sc h) X.
Proof.
  intros Hp Hn.
  assert (Hn' : NoDup (map fst ((h, i) :: X))).
  { eapply Permutation_NoDup; [|exact Hn]. apply Permutation_map, Hp. }
  simpl in Hn'. inversion Hn' as [|? ? Hnotin _]; subst.
  pose proof (Permutation_filter_both
                (fun e : handle * Item => negb (Nat.eqb (fst e) h)) Hp) as Hf.
  simpl in Hf. rewrite Nat.eqb_refl in Hf. simpl in Hf.
  change (filter (fun e : handle * Item => negb (Nat.eqb (fst e) h)) X)
    with (removeItem X h) in Hf.
  rewrite (@removeItem_absent X h Hnotin) in Hf. exact Hf.
Qed.

Section SceneFacts.

Context {tk : Toolkit}.

Lemma marker_items_handles (lm : Z) (ms : list Marker) :
  map fst (flat_map (marker_items lm) ms) =
  flat_map (fun m => [line m; text m]) ms.
Proof.
  induction ms as [|m ms IH]; simpl; [reflexivity|].
  rewrite IH. reflexivity.
Qed.

Lemma marker_items_length (lm : Z) (ms : list Marker) :
  List.length (flat_map (marker_items lm) ms) = (2 * List.length ms)%nat.
Proof.
  induction ms as [|m ms IH]; simpl; [reflexivity|].
  rewrite IH. lia.
Qed.

(** Removing the tick and the label of a marker from a scene that has
    them, with distinct handles, leaves the other items. *)
Lemma remove_marker_items (sc X : Scene) (m : Marker) (lm : Z) :
  Permutation sc (marker_items lm m ++ X) -> NoDup (map fst sc) ->
  Permutation (removeItem (removeItem sc (line m)) (text m)) X.
Proof.
  intros Hp Hn. simpl in Hp.
  eapply removeItem_perm.
  - eapply removeItem_perm; [exact Hp | exact Hn].
  - apply removeItem_NoDup, Hn.
Qed.

Lemma clear_fold (ms : list Marker) (sc A : Scene) :
  Permutation sc (A ++ flat_map (marker_items 60) ms) ->
  NoDup (map fst sc) ->
  Permutation
    (fold_left (fun sc d => removeItem (removeItem sc (line d)) (text d)) ms sc)
    A.
Proof.
  revert sc. induction ms as [|m ms IH]; intros sc Hp Hn; simpl.
  - simpl in Hp. rewrite app_nil_r in Hp. exact Hp.
  - apply IH.
    + eapply remove_marker_items; [|exact Hn].
      eapply Permutation_trans; [exact Hp|].
      change (flat_map (marker_items 60) (m :: ms))
        with (marker_items 60 m ++ flat_map (marker_items 60) ms).
      rewrite !app_assoc. apply Permutation_app_tail, Permutation_app_comm.
    + apply removeItem_NoDup, removeItem_NoDup, Hn.
Qed.

Lemma clear_fold_handles (P : handle -> Prop) (ms : list Marker) (sc : Scene) :
  NoDup (map fst sc) -> Forall P (map fst sc) ->
  NoDup (map fst
    (fold_left (fun sc d => removeItem (removeItem sc (line d)) (text d)) ms sc))
  /\ Forall P (map fst
    (fold_left (fun sc d => removeItem (removeItem sc (line d)) (text d)) ms sc)).
Proof.
  revert sc. induction ms as [|m ms IH]; intros sc Hn Hf; simpl.
  - split; assumption.
  - apply IH.
    + apply removeItem_NoDup, removeItem_NoDup, Hn.
    + apply removeItem_Forall, removeItem_Forall, Hf.
Qed.

Lemma scene_inv_init : scene_inv init.
Proof.
  unfold scene_inv, init; simpl. split; [reflexivity|]. split.
  - repeat constructor; simpl; intuition lia.
  - split; [repeat constructor; lia | split; reflexivity].
Qed.

Lemma scene_inv_view (s : MainWindow) (v : CanvasView) :
  scene_inv s -> scene_inv (set_view s v).
Proof.
  exact (fun H => H).
Qed.

Lemma scene_inv_open (s : MainWindow) (path : String.string) (pm : QPixmap) :
  scene_inv s -> scene_inv (open_image s path pm).
Proof.
  intro H. unfold open_image. destruct path; [exact H|].
  destruct (pm_isNull pm); [exact H|].
  destruct H as (Hm & _). unfold scene_inv; simpl. rewrite Hm.
  split; [reflexivity|]. split.
  - constructor; [intros []|constructor].
  - split; [repeat constructor; lia|].
    split; [reflexivity|]. exists pm. split; [reflexivity|].
    apply Permutation_refl.
Qed.

Lemma scene_inv_add (s : MainWindow) (scene_y val : Q) (ok : bool) :
  scene_inv s -> scene_inv (add_kda_marker s scene_y val ok).
Proof.
  intro H. unfold add_kda_marker. destruct ok; [|exact H].
  destruct H as (Hm & Hn & Hf & Hp).
  destruct (pixmap_item s) as [[h pos]|] eqn:Ei.
  2: { unfold scene_inv. rewrite Ei. auto. }
  destruct Hp as (Hpos & pm & Hpm & Hperm).
  unfold scene_inv; simpl. rewrite Ei.
  split; [exact Hm|]. split; [|split; [|split]].
  - rewrite map_app. simpl. apply NoDup_app.
    + exact Hn.
    + constructor; [simpl; intros [E|[]]; lia|].
      constructor; [intros []|constructor].
    + intros k Hk. rewrite Forall_forall in Hf. specialize (Hf k Hk).
      simpl. intros [E|[E|[]]]; lia.
  - rewrite map_app. apply Forall_app. split.
    + eapply Forall_impl; [|exact Hf]. simpl. intros k Hk. lia.
    + repeat constructor; lia.
  - exact Hpos.
  - exists pm. split; [exact Hpm|].
    set (m := mkMarker scene_y val (next_handle s) (S (next_handle s))).
    eapply Permutation_trans;
      [apply Permutation_app_tail; exact Hperm|].
    simpl. apply perm_skip.
    eapply Permutation_trans;
      [|apply Permutation_flat_map, Permutation_sym, list_sort_perm].
    rewrite flat_map_app, Hm. apply Permutation_refl.
Qed.

Lemma scene_inv_undo (s : MainWindow) :
  scene_inv s -> scene_inv (undo_last_kda s).
Proof.
  intro H. unfold undo_last_kda.
  destruct (pop (kda_markers s)) as [[last rest]|] eqn:E; [|exact H].
  apply pop_Some in E.
  destruct H as (Hm & Hn & Hf & Hp).
  unfold scene_inv; simpl.
  split; [exact Hm|]. split; [apply removeItem_NoDup, removeItem_NoDup, Hn|].
  split; [apply removeItem_Forall, removeItem_Forall, Hf|].
  destruct (pixmap_item s) as [[h pos]|].
  - destruct Hp as (Hpos & pm & Hpm & Hperm).
    split; [exact Hpos|]. exists pm. split; [exact Hpm|].
    eapply remove_marker_items; [|exact Hn].
    eapply Permutation_trans; [exact Hperm|].
    rewrite E, flat_map_app.
    change (flat_map (marker_items 60) [last])
      with (marker_items 60 last ++ []).
    rewrite app_nil_r, app_comm_cons. apply Permutation_app_comm.
  - destruct Hp as [_ Hk]. rewrite Hk in E.
    destruct rest; discriminate.
Qed.

Lemma scene_inv_clear (s : MainWindow) :
  scene_inv s -> scene_inv (clear_all_kda s).
Proof.
  intros (Hm & Hn & Hf & Hp). unfold scene_inv, clear_all_kda; simpl.
  destruct (@clear_fold_handles (fun h => (h < next_handle s)%nat)
              (kda_markers s) (scene s) Hn Hf) as [Hn' Hf'].
  split; [exact Hm|]. split; [exact Hn'|]. split; [exact Hf'|].
  destruct (pixmap_item s) as [[h pos]|].
  - destruct Hp as (Hpos & pm & Hpm & Hperm).
    split; [exact Hpos|]. exists pm. split; [exact Hpm|].
    simpl. apply clear_fold; [|exact Hn]. exact Hperm.
  - split; [tauto | reflexivity].
Qed.

Lemma scene_inv_step (s : MainWindow) (e : event) :
  scene_inv s -> scene_inv (step s e).
Proof.
  intro H. destruct e as [path pm| | | | |b pos val ok|pos|pos]; simpl.
  - apply scene_inv_open, H.
  - unfold enable_mark_mode. destruct (current_pixmap s); exact H.
  - unfold enable_crop_mode. destruct (current_pixmap s); exact H.
  - apply scene_inv_undo, H.
  - apply scene_inv_clear, H.
  - unfold mousePressEvent. destruct b; try exact H.
    destruct (mode (view s)) as [[|]|]; try exact H.
    + destruct (crop_callback (view s)); exact H.
    + destruct (mark_callback (view s)); [apply scene_inv_add|]; exact H.
  - unfold mouseMoveEvent. destruct (rubberBand (view s)) as [rb|]; [|exact H].
    destruct (isVisible rb); exact H.
  - unfold mouseReleaseEvent.
    destruct (rubberBand (view s)) as [rb|]; [|exact H].
    destruct (isVisible rb); [|exact H].
    destruct (crop_callback (view s)); [|exact H].
    unfold crop_region; simpl.
    destruct (pixmap_item s) as [[h p]|] eqn:Ei; [|exact H].
    destruct (current_pixmap s) eqn:Ep; [|exact H].
    unfold scene_inv in *; simpl. rewrite Ei, Ep in *. exact H.
Qed.

Lemma scene_inv_run (evs : list event) (s : MainWindow) :
  scene_inv s -> scene_inv (run evs s).
Proof.
  revert s. induction evs as [|e evs IH]; intros s H; simpl.
  - exact H.
  - apply IH, scene_inv_step, H.
Qed.

End SceneFacts.

Section SceneTheorems.

Context {tk : Toolkit}.

Lemma scene_inv_reached (evs : list event) : scene_inv (run evs init).
Proof.
  apply scene_inv_run, scene_inv_init.
Qed.

(** X1. Whatever events came, with an image loaded the scene shows the
    store and nothing else: it holds the current image at (60, 0) and, for
    each marker of the list, a tick and a label at the marker's [y] with
    the marker's kDa value, so one item plus two per marker, no two under
    the same handle. *)
Theorem scene_shows_store (evs : list event) (h : handle) (pos : QPointF) :
  pixmap_item (run evs init) = Some (h, pos) ->
  pos = placement 60
  /\ exists pm : QPixmap,
       current_pixmap (run evs init) = Some pm
       /\ Permutation (scene (run evs init))
            ((h, PixmapItem pm pos)
               :: flat_map (marker_items 60) (kda_markers (run evs init)))
       /\ NoDup (map fst (scene (run evs init)))
       /\ List.length (scene (run evs init)) =
          S (2 * List.length (kda_markers (run evs init))).
Proof.
  intro Ei. destruct (scene_inv_reached evs) as (_ & Hn & _ & Hp).
  rewrite Ei in Hp. destruct Hp as (Hpos & pm & Hpm & Hperm).
  split; [exact Hpos|]. exists pm. repeat split; try assumption.
  rewrite (Permutation_length Hperm). simpl.
  rewrite marker_items_length. lia.
Qed.

(** X2. Clear All kDa leaves the image as the only item of the scene and
    no marker in the list, whatever events came before; and clearing
    twice is clearing once. *)
Theorem clear_leaves_image (evs : list event) :
  (forall (h : handle) (pos : QPointF),
     pixmap_item (run evs init) = Some (h, pos) ->
     exists pm : QPixmap,
       current_pixmap (run evs init) = Some pm
       /\ scene (clear_all_kda (run evs init)) =
          [(h, PixmapItem pm (placement 60))]
       /\ kda_markers (clear_all_kda (run evs init)) = [])
  /\ (forall s : MainWindow,
        clear_all_kda (clear_all_kda s) = clear_all_kda s).
Proof.
  split; [|reflexivity].
  intros h pos Ei. destruct (scene_inv_reached evs) as (_ & Hn & _ & Hp).
  rewrite Ei in Hp. destruct Hp as (Hpos & pm & Hpm & Hperm).
  exists pm. split; [exact Hpm|]. split; [|reflexivity].
  subst pos. unfold clear_all_kda; simpl.
  apply Permutation_length_1_inv, Permutation_sym.
  apply (clear_fold (kda_markers (run evs init))
           [(h, PixmapItem pm (placement 60))]); assumption.
Qed.

(** Each marker has a tick and a label of its own: over the whole
    list no handle occurs twice, whatever events came. *)
Theorem markers_have_own_items (evs : list event) :
  NoDup (flat_map (fun m => [line m; text m]) (kda_markers (run evs init))).
Proof.
  destruct (scene_inv_reached evs) as (_ & Hn & _ & Hp).
  destruct (pixmap_item (run evs init)) as [[h pos]|].
  - destruct Hp as (_ & pm & _ & Hperm).
    apply (Permutation_map fst) in Hperm.
    apply (Permutation_NoDup Hperm) in Hn. simpl in Hn.
    rewrite marker_items_handles in Hn. inversion Hn; assumption.
  - destruct Hp as [_ ->]. constructor.
Qed.

Lemma marker_items_gutter (m : Marker) :
  Forall tick_in_gutter (map snd (marker_items 60 m)).
Proof.
  repeat constructor; unfold Qle, Qlt; simpl; lia.
Qed.

Lemma preview_tick_gutter (r : QRect) (ms : list Marker) :
  Forall tick_in_gutter (flat_map (preview_tick 60 r) ms).
Proof.
  induction ms as [|m ms IH]; simpl; [constructor|].
  constructor; [repeat split; unfold Qle, Qlt; simpl; lia|].
  constructor; [exact I | exact IH].
Qed.

Lemma classic_release (e : event) :
  (exists pos : QPoint, e = MouseRelease pos)
  \/ (forall pos : QPoint, e <> MouseRelease pos).
Proof.
  destruct e; try (right; intros; discriminate). left. eexists. reflexivity.
Qed.

Lemma preview_inv_step (s : MainWindow) (e : event) :
  preview_inv s -> preview_inv (step s e).
Proof.
  intro H. destruct (classic_release e) as [[pos ->]|Hne].
  2: { unfold preview_inv. rewrite (preview_kept s Hne). exact H. }
  simpl. unfold mouseReleaseEvent.
  destruct (rubberBand (view s)) as [rb|]; [|exact H].
  destruct (isVisible rb); [|exact H].
  destruct (crop_callback (view s)); [|exact H].
  unfold crop_region; simpl.
  destruct (pixmap_item s) as [[h p]|]; [|exact H].
  destruct (current_pixmap s); [|exact H].
  unfold preview_inv; simpl. split; [reflexivity|].
  apply preview_tick_gutter.
Qed.

End SceneTheorems.

Section NoImage.

Context {tk : Toolkit}.

Lemma current_pixmap_step (s : MainWindow) (e : event) :
  current_pixmap (step s e) = current_pixmap s
  \/ exists pm : QPixmap, current_pixmap (step s e) = Some pm.
Proof.
  destruct e as [path pm| | | | |b pos val ok|pos|pos]; simpl.
  - unfold open_image. destruct path; [now left|].
    destruct (pm_isNull pm); [now left|]. right. exists pm. reflexivity.
  - left. unfold enable_mark_mode.
    destruct (current_pixmap s) eqn:E; simpl; exact E.
  - left. unfold enable_crop_mode.
    destruct (current_pixmap s) eqn:E; simpl; exact E.
  - left. unfold undo_last_kda.
    destruct (pop (kda_markers s)) as [[? ?]|]; reflexivity.
  - now left.
  - left. unfold mousePressEvent. destruct b; try reflexivity.
    destruct (mode (view s)) as [[|]|]; try reflexivity.
    + destruct (crop_callback (view s)); reflexivity.
    + destruct (mark_callback (view s)); [|reflexivity].
      unfold add_kda_marker. destruct ok; [|reflexivity].
      destruct (pixmap_item s); reflexivity.
  - left. unfold mouseMoveEvent.
    destruct (rubberBand (view s)) as [rb|]; [|reflexivity].
    destruct (isVisible rb); reflexivity.
  - left. unfold mouseReleaseEvent.
    destruct (rubberBand (view s)) as [rb|]; [|reflexivity].
    destruct (isVisible rb); [|reflexivity].
    destruct (crop_callback (view s)); [|reflexivity].
    unfold crop_region; simpl.
    destruct (pixmap_item s) as [[h p]|]; [|reflexivity].
    destruct (current_pixmap s) eqn:E; simpl; exact E.
Qed.

Lemma step_init_fixed (e : event) :
  current_pixmap (step init e) = None -> step init e = init.
Proof.
  destruct e as [path pm| | | | |b pos val ok|pos|pos]; simpl; try reflexivity.
  - unfold open_image. destruct path; [reflexivity|].
    destruct (pm_isNull pm); [reflexivity|]. simpl. discriminate.
  - intros _. destruct b; reflexivity.
Qed.

Lemma no_image_is_init (evs : list event) :
  current_pixmap (run evs init) = None -> run evs init = init.
Proof.
  induction evs as [|e evs IH] using rev_ind; [reflexivity|].
  unfold run in *. rewrite fold_left_app. simpl. intro Hn.
  destruct (current_pixmap_step (fold_left step evs init) e) as [E|[pm E]];
    [|congruence].
  rewrite Hn in E. symmetry in E. rewrite (IH E) in *.
  apply step_init_fixed, Hn.
Qed.

(** X3. Until an image has been opened, no command and no pointer event
    changes the window: whatever events came, if no image is loaded the
    window is as it started.  And an image, once loaded, is never
    unloaded. *)
Theorem no_image_no_change (evs : list event) :
  (current_pixmap (run evs init) = None -> run evs init = init)
  /\ (forall more : list event,
        current_pixmap (run evs init) <> None ->
        current_pixmap (run more (run evs init)) <> None).
Proof.
  split; [apply no_image_is_init|].
  intro more. generalize (run evs init). induction more as [|e more IH];
    intros s Hs; simpl; [exact Hs|].
  apply IH. destruct (current_pixmap_step s e) as [E|[pm E]]; congruence.
Qed.

End NoImage.

Section StoreTheorems.

Context {tk : Toolkit}.

Lemma preview_inv_reached (evs : list event) : preview_inv (run evs init).
Proof.
  assert (H : forall s, preview_inv s -> preview_inv (run evs s)).
  { induction evs as [|e evs IH]; intros s Hs; simpl; [exact Hs|].
    apply IH, preview_inv_step, Hs. }
  apply H. exact I.
Qed.

Lemma marker_items_all_gutter (ms : list Marker) :
  Forall tick_in_gutter (map snd (flat_map (marker_items 60) ms)).
Proof.
  induction ms as [|m ms IH]; [constructor|].
  change (flat_map (marker_items 60) (m :: ms))
    with (marker_items 60 m ++ flat_map (marker_items 60) ms).
  rewrite map_app. apply Forall_app. split; [apply marker_items_gutter | exact IH].
Qed.

(** X4. Ticks are drawn in the left margin and never over the image:
    whatever events came, every tick line of the scene runs between x = 0
    and x = 60 while the image, when there is one, sits at (60, 0); and
    the same holds in the preview of the last crop. *)
Theorem ticks_stay_in_gutter (evs : list event) :
  Forall tick_in_gutter (map snd (scene (run evs init)))
  /\ (forall (h : handle) (pos : QPointF),
        pixmap_item (run evs init) = Some (h, pos) -> pos = mkQPointF 60 0)
  /\ (forall pv : Preview,
        _crop_window (run evs init) = Some pv ->
        pv_pixmap_pos pv = mkQPointF 60 0
        /\ Forall tick_in_gutter (pv_items pv)).
Proof.
  pose proof (scene_inv_reached evs) as (_ & _ & _ & Hp).
  pose proof (preview_inv_reached evs) as Hv.
  split; [|split].
  - destruct (pixmap_item (run evs init)) as [[h pos]|].
    + destruct Hp as (_ & pm & _ & Hperm).
      apply (Permutation_map snd) in Hperm.
      eapply Permutation_Forall; [apply Permutation_sym, Hperm|].
      simpl. constructor; [exact I | apply marker_items_all_gutter].
    + destruct Hp as [Hn _].
      rewrite (no_image_is_init evs Hn). repeat constructor.
  - intros h pos E. rewrite E in Hp. destruct Hp as [-> _]. reflexivity.
  - intros pv E. unfold preview_inv in Hv. rewrite E in Hv. exact Hv.
Qed.

Lemma removeItem_app (a b : Scene) (h : handle) :
  removeItem (a ++ b) h = removeItem a h ++ removeItem b h.
Proof.
  apply filter_app.
Qed.

Lemma removeItem_new_pair (h : handle) (a b : Item) :
  removeItem (removeItem [(h, a); (S h, b)] h) (S h) = [].
Proof.
  assert (E : Nat.eqb (S h) h = false) by (apply Nat.eqb_neq; lia).
  unfold removeItem. cbn [filter fst]. rewrite Nat.eqb_refl.
  cbn [negb filter fst]. rewrite E. cbn [negb filter fst].
  rewrite Nat.eqb_refl. reflexivity.
Qed.

(** X5. Placing a marker and then choosing Undo Last kDa gives back the
    marker list and the scene as they were exactly when no marker of the
    list lies below the new one (has a greater [y]); when one does, the
    undo removes another marker and the new one stays in the list. *)
Theorem place_then_undo (evs : list event) (scene_y val : Q) :
  pixmap_item (run evs init) <> None ->
  (Forall (fun m => y m <= scene_y) (kda_markers (run evs init)) ->
     kda_markers (undo_last_kda (add_kda_marker (run evs init) scene_y val true))
     = kda_markers (run evs init)
     /\ scene (undo_last_kda (add_kda_marker (run evs init) scene_y val true))
        = scene (run evs init))
  /\ (Exists (fun m => scene_y < y m) (kda_markers (run evs init)) ->
        In (mkMarker scene_y val (next_handle (run evs init))
                     (S (next_handle (run evs init))))
           (kda_markers
              (undo_last_kda (add_kda_marker (run evs init) scene_y val true)))
        /\ List.length
             (kda_markers
                (undo_last_kda (add_kda_marker (run evs init) scene_y val true)))
           = List.length (kda_markers (run evs init))).
Proof.
  set (s := run evs init). intro Hi.
  assert (Hst : store_inv s) by apply store_inv_run, store_inv_init.
  pose proof (scene_inv_reached evs) as (_ & _ & Hf & _). fold s in Hf.
  pose proof (add_kda_marker_insert scene_y val Hst Hi) as Hk.
  set (new := mkMarker scene_y val (next_handle s) (S (next_handle s))) in *.
  split.
  - intro Hall. rewrite (@insert_right_last _ y new _ Hall) in Hk.
    unfold undo_last_kda. rewrite Hk, pop_snoc. simpl. split; [reflexivity|].
    unfold add_kda_marker. destruct (pixmap_item s); [|congruence]. simpl.
    rewrite !removeItem_app.
    assert (Hfresh : forall k, (next_handle s <= k)%nat ->
                               ~ In k (map fst (scene s))).
    { intros k Hk' Hin. rewrite Forall_forall in Hf. specialize (Hf k Hin). lia. }
    rewrite (@removeItem_absent (scene s) (next_handle s))
      by (apply Hfresh; lia).
    rewrite (@removeItem_absent (scene s) (S (next_handle s)))
      by (apply Hfresh; lia).
    rewrite removeItem_new_pair. apply app_nil_r.
  - intro Hex.
    rewrite (@insert_right_split _ y new _ (aged_key_le (proj1 Hst))) in Hk.
    assert (Hne : filter (fun a => Qltb (y new) (y a)) (kda_markers s) <> []).
    { apply Exists_exists in Hex. destruct Hex as (m & Hm & Hlt).
      intro E. assert (Hin : In m (filter (fun a => Qltb (y new) (y a))
                                          (kda_markers s))).
      { apply filter_In. split; [exact Hm|]. apply Qltb_true. exact Hlt. }
      rewrite E in Hin. exact Hin. }
    destruct (exists_last Hne) as (B & l & EB). rewrite EB in Hk.
    assert (Hk' : kda_markers (add_kda_marker s scene_y val true) =
                  (filter (fun a => Qle_bool (y a) (y new)) (kda_markers s)
                   ++ new :: B) ++ [l]).
    { rewrite Hk, <- app_assoc. reflexivity. }
    unfold undo_last_kda. rewrite Hk', pop_snoc. simpl. split.
    + apply in_or_app. right. now left.
    + pose proof (add_kda_marker_insert scene_y val Hst Hi) as Hins.
      fold new in Hins. rewrite Hk' in Hins.
      pose proof (Permutation_length (insert_right_perm y new (kda_markers s)))
        as Hlen.
      rewrite <- Hins in Hlen. rewrite length_app in Hlen. simpl in Hlen. lia.
Qed.

(** X6. In any state the program reaches, a crop copies from the current
    image the selection moved 60 pixels to the left: same rows, same
    width and height; and the preview shows the copy at (60, 0). *)
Theorem crop_reads_shifted_rect (evs : list event) (scene_rect : QRect)
    (s' : MainWindow) :
  crop_region (run evs init) scene_rect = Some s' ->
  exists (pm : QPixmap) (pv : Preview) (pix_rect : QRect),
    current_pixmap (run evs init) = Some pm
    /\ _crop_window s' = Some pv
    /\ pv_pixmap pv = pixmap_copy pm pix_rect
    /\ pv_pixmap_pos pv = mkQPointF 60 0
    /\ left pix_rect = (left scene_rect - 60)%Z
    /\ top pix_rect = top scene_rect
    /\ bottom pix_rect = bottom scene_rect
    /\ width pix_rect = width scene_rect
    /\ height pix_rect = height scene_rect.
Proof.
  intro E. apply crop_region_Some in E.
  destruct E as (h & pos & pm & Hi & Hp & ->).
  pose proof (scene_inv_reached evs) as (_ & _ & _ & Hinv).
  rewrite Hi in Hinv. destruct Hinv as (-> & _).
  exists pm. eexists. eexists. split; [exact Hp|]. split; [reflexivity|].
  split; [reflexivity|]. split; [reflexivity|].
  rewrite toPoint_placement.
  unfold left, top, bottom, width, height, translated, QPoint_neg; simpl.
  repeat split; lia.
Qed.

End StoreTheorems.

(* ================================================================== *)
(** ** Degenerate selections and the two coordinate frames *)
(* ================================================================== *)

Lemma isEmpty_translated (r : QRect) (d : QPoint) :
  isEmpty (translated r d) = isEmpty r.
Proof.
  unfold isEmpty, translated; simpl.
  f_equal; apply eq_iff_eq_true; rewrite !Z.ltb_lt; lia.
Qed.

Lemma sceneToImage_Some (w h : Z) (p q : QPoint) (m : Z) :
  sceneToImage w h p m = Some q -> q = QPoint_sub p (mkQPoint m 0).
Proof.
  unfold sceneToImage.
  destruct ((0 <=? px (QPoint_sub p (mkQPoint m 0)))%Z
            && (px (QPoint_sub p (mkQPoint m 0)) <? w)%Z
            && (0 <=? py (QPoint_sub p (mkQPoint m 0)))%Z
            && (py (QPoint_sub p (mkQPoint m 0)) <? h)%Z)%bool;
    congruence.
Qed.

Lemma imageToScene_back (p : QPoint) (m : Z) :
  imageToScene (QPoint_sub p (mkQPoint m 0)) m = p.
Proof.
  destruct p as [a b]. unfold imageToScene, QPoint_add, QPoint_sub; simpl.
  f_equal; lia.
Qed.

Section Frames.

Context {tk : Toolkit}.

Lemma empty_is_degenerate (s : MainWindow) (r : QRect) (h : handle)
    (pos : QPointF) (pm : QPixmap) :
  pixmap_item s = Some (h, pos) -> current_pixmap s = Some pm ->
  isEmpty r = true -> degenerate_crop s r = true.
Proof.
  intros Hi Hp He. unfold degenerate_crop. rewrite Hi, Hp.
  unfold isEmpty in He. apply orb_true_iff in He. apply orb_true_iff.
  unfold width, height, clipped, translated; simpl.
  rewrite !Z.leb_le. rewrite !Z.ltb_lt in He. lia.
Qed.

(** C4 (as amended). In any state the program reaches with the crop
    callback bound, a crop of any rectangle returns, also when the
    rectangle cut to the image has no width or no height.  The image of the
    result is the toolkit's copy of the selection moved 60 pixels to the
    left; an empty selection is such a degenerate crop, and where the
    toolkit copies the whole pixmap for an empty rectangle the image of its
    result is the whole source image, not an empty one.  The markers of the
    result are those of the selection's vertical span, re-based: none when
    the selection has no height. *)
Theorem crop_degenerate_returns (evs : list event) (scene_rect : QRect) :
  let s := run evs init in
  crop_callback (view s) = true ->
  exists (s' : MainWindow) (pv : Preview) (pm : QPixmap),
    crop_region s scene_rect = Some s'
    /\ _crop_window s' = Some pv
    /\ current_pixmap s = Some pm
    /\ pv_pixmap pv =
       pixmap_copy pm (translated scene_rect (mkQPoint (-60) 0))
    /\ (isEmpty scene_rect = true ->
        degenerate_crop s scene_rect = true
        /\ ((forall (p : QPixmap) (r : QRect),
               isEmpty r = true -> pixmap_copy p r = p) ->
            pv_pixmap pv = pm))
    /\ tick_positions (pv_items pv) =
       map (fun m => y m - inject_Z (top scene_rect))
           (filter (inside_rect scene_rect) (kda_markers s))
    /\ ((height scene_rect <= 0)%Z -> pv_items pv = []).
Proof.
  intros s Hcb.
  destruct (armed_inv_run evs armed_inv_init) as (_ & _ & Hpm & _ & Hpi).
  fold s in Hpm, Hpi. specialize (Hpm Hcb). specialize (Hpi Hpm).
  destruct (pixmap_item s) as [[h pos]|] eqn:Ei; [|congruence].
  destruct (current_pixmap s) as [pm|] eqn:Ep; [|congruence].
  pose proof (scene_inv_reached evs) as (_ & _ & _ & Hinv). fold s in Hinv.
  rewrite Ei in Hinv. destruct Hinv as (Hpos & _).
  assert (Hrect : translated scene_rect (QPoint_neg (toPoint pos)) =
                  translated scene_rect (mkQPoint (-60) 0)).
  { rewrite Hpos, toPoint_placement. reflexivity. }
  eexists. eexists. exists pm.
  split; [unfold crop_region; rewrite Ei, Ep; reflexivity|].
  split; [reflexivity|]. split; [reflexivity|].
  split; [simpl; rewrite Hrect; reflexivity|]. split; [|split].
  - intro He. split.
    + exact (empty_is_degenerate s scene_rect Ei Ep He).
    + intro Hcopy. simpl. apply Hcopy.
      rewrite isEmpty_translated. exact He.
  - simpl. apply tick_positions_preview.
  - intro Hh. simpl. rewrite filter_none; [reflexivity|].
    apply Forall_forall. intros m _.
    destruct (inside_rect scene_rect m) eqn:E; [|reflexivity].
    apply inside_rect_iff in E. destruct E as [E1 E2].
    assert (Hle : inject_Z (top scene_rect) <= inject_Z (bottom scene_rect))
      by (eapply Qle_trans; eassumption).
    rewrite <- Zle_Qle in Hle. unfold height, top, bottom in *. lia.
Qed.

(** C5.  For every integer scene point [p] and margin [m]: when
    [sceneToImage] gives an image point and reports nothing out of bounds,
    [imageToScene] takes that point back to [p]; the image point is then
    found again from the result, and any number of trips there and back
    ends at [p].  The code uses the same two shifts: in every state the
    program reaches, [open_image] has put pixel (0, 0) of the image at the
    scene point [imageToScene] gives for it, and [crop_region] copies the
    rectangle between the image points that [sceneToImage] gives for the
    corners of the selection. *)
Theorem scene_image_round_trip :
  (forall (imageWidth imageHeight : Z) (p q : QPoint) (m : Z),
      sceneToImage imageWidth imageHeight p m = Some q ->
      imageToScene q m = p
      /\ sceneToImage imageWidth imageHeight (imageToScene q m) m = Some q
      /\ forall n : nat,
           Nat.iter n
             (fun p' => match sceneToImage imageWidth imageHeight p' m with
                        | Some q' => imageToScene q' m
                        | None => p'
                        end) p = p)
  /\ (forall (evs : list event) (scene_rect : QRect) (s' : MainWindow),
        crop_region (run evs init) scene_rect = Some s' ->
        exists (h : handle) (pm : QPixmap) (pv : Preview),
          pixmap_item (run evs init) =
          Some (h, toPointF (imageToScene (mkQPoint 0 0)
                                          (left_margin (run evs init))))
          /\ current_pixmap (run evs init) = Some pm
          /\ _crop_window s' = Some pv
          /\ forall q1 q2 : QPoint,
               sceneToImage (pm_width pm) (pm_height pm) (topLeft scene_rect)
                            (left_margin (run evs init)) = Some q1 ->
               sceneToImage (pm_width pm) (pm_height pm)
                            (bottomRight scene_rect)
                            (left_margin (run evs init)) = Some q2 ->
               pv_pixmap pv = pixmap_copy pm (QRect_of_points q1 q2)
               /\ QRect_of_points
                    (imageToScene q1 (left_margin (run evs init)))
                    (imageToScene q2 (left_margin (run evs init)))
                  = scene_rect).
Proof.
  split.
  - intros w h p q m H.
    assert (Hback : imageToScene q m = p).
    { rewrite (sceneToImage_Some _ _ _ _ H). apply imageToScene_back. }
    split; [exact Hback|]. split; [rewrite Hback; exact H|].
    induction n as [|n IH]; simpl; [reflexivity|].
    rewrite IH, H. exact Hback.
  - intros evs scene_rect s' E. apply crop_region_Some in E.
    destruct E as (h & pos & pm & Hi & Hp & ->).
    pose proof (scene_inv_reached evs) as (Hm & _ & _ & Hinv).
    rewrite Hi in Hinv. destruct Hinv as (-> & _).
    exists h, pm. eexists. rewrite Hm.
    split; [exact Hi|]. split; [exact Hp|]. split; [reflexivity|].
    intros q1 q2 H1 H2.
    rewrite (sceneToImage_Some _ _ _ _ H1), (sceneToImage_Some _ _ _ _ H2).
    rewrite !imageToScene_back. split.
    + simpl. rewrite toPoint_placement. reflexivity.
    + destruct scene_rect; reflexivity.
Qed.

End Frames.

(** C4 (as stated, refuted).  With markers at 120 and 5, the mouse is
    dragged over a rectangle inside the left margin: cut to the image the
    selection has no width, and the marker at 120 is in the result all the
    same, at 20.  Then the mouse is let go one pixel to the left of where
    it was pressed: the selection is the empty [QRect(0, 0, 0, 0)], cut to
    the image it has no width and no height, and the image of the result
    is the whole gel of 240 rows, since a copy of an empty rectangle is a
    copy of the whole pixmap. *)
Lemma degenerate_crop_not_empty :
  (release_scene_rect
     (view (run (tk := plain_toolkit) (removelast margin_drag) marked_120_5))
     (mkQPoint 29 199) = margin_rect
   /\ degenerate_crop marked_120_5 margin_rect = true
   /\ option_map (fun pv => tick_positions (pv_items pv))
        (_crop_window (run (tk := plain_toolkit) margin_drag marked_120_5))
      = Some [20])
  /\ (release_scene_rect
        (view (run (tk := plain_toolkit) (removelast empty_drag) marked_120_5))
        (mkQPoint 69 60) = empty_rect
      /\ isEmpty empty_rect = true
      /\ degenerate_crop marked_120_5 empty_rect = true
      /\ option_map pv_pixmap
           (_crop_window (run (tk := plain_toolkit) empty_drag marked_120_5))
         = Some gel
      /\ pm_isNull gel = false
      /\ pm_height gel = 240%Z).
Proof.
  vm_compute. repeat split; reflexivity.
Qed.

(** With the image open and crop mode chosen, a crop of the empty
    selection returns a preview with the whole gel and no tick. *)
Lemma crop_degenerate_returns_witness :
  crop_callback
    (view (run (tk := plain_toolkit)
             [OpenImage gel_path gel; EnableCropMode]
             (init (tk := plain_toolkit)))) = true
  /\ exists (s' : MainWindow) (pv : Preview),
       crop_region (tk := plain_toolkit)
         (run (tk := plain_toolkit)
            [OpenImage gel_path gel; EnableCropMode]
            (init (tk := plain_toolkit)))
         empty_rect = Some s'
       /\ _crop_window s' = Some pv
       /\ pv_pixmap pv = gel
       /\ pv_items pv = [].
Proof.
  split; [reflexivity|].
  destruct (crop_degenerate_returns (tk := plain_toolkit)
              [OpenImage gel_path gel; EnableCropMode] empty_rect eq_refl)
    as (s' & pv & pm & E & Hw & Hp & _ & Hemp & _ & Hnone).
  exists s', pv. split; [exact E|]. split; [exact Hw|]. split.
  - destruct (Hemp eq_refl) as [_ Hwhole]. rewrite Hwhole.
    + injection Hp as <-. reflexivity.
    + intros p r Hr. simpl. unfold sub_image. rewrite Hr. reflexivity.
  - apply Hnone. unfold height, empty_rect, QRect_xywh; simpl. lia.
Defined.

(** The scene point (70, 20) over a gel of 100 by 240 with margin 60: the
    image point is (10, 20), and the way back ends at (70, 20). *)
Lemma scene_image_round_trip_witness :
  sceneToImage 100 240 (mkQPoint 70 20) 60 = Some (mkQPoint 10 20)
  /\ imageToScene (mkQPoint 10 20) 60 = mkQPoint 70 20.
Proof.
  split; [reflexivity|].
  destruct (@scene_image_round_trip plain_toolkit) as [Hpoint _].
  destruct (Hpoint 100%Z 240%Z (mkQPoint 70 20) (mkQPoint 10 20) 60%Z eq_refl)
    as [Hback _].
  exact Hback.
Defined.

(* ================================================================== *)
(** ** Further properties: pointer gestures *)
(* ================================================================== *)

Section Gestures.

Context {tk : Toolkit}.

Lemma same_but_band_refl (s : MainWindow) : same_but_band s s.
Proof.
  unfold same_but_band. repeat split; auto.
Qed.

Lemma same_but_band_trans (s t u : MainWindow) :
  same_but_band s t -> same_but_band t u -> same_but_band s u.
Proof.
  unfold same_but_band. intros Hs Ht.
  repeat match goal with H : _ /\ _ |- _ => destruct H end.
  repeat split; try congruence; intuition.
Qed.

Lemma move_same (s : MainWindow) (p : QPoint) :
  same_but_band (mouseMoveEvent s p) s.
Proof.
  unfold mouseMoveEvent.
  destruct (rubberBand (view s)) as [rb|] eqn:E; [|apply same_but_band_refl].
  destruct (isVisible rb) eqn:Ev; [|apply same_but_band_refl].
  unfold same_but_band, band_visible; simpl. rewrite E, Ev.
  repeat split; auto; discriminate.
Qed.

Lemma moves_same (moves : list QPoint) (s : MainWindow) :
  same_but_band (run (map MouseMove moves) s) s.
Proof.
  revert s. induction moves as [|p moves IH]; intro s; simpl.
  - apply same_but_band_refl.
  - eapply same_but_band_trans; [apply IH | apply move_same].
Qed.

Lemma release_same (s t : MainWindow) (p : QPoint) :
  same_but_band s t ->
  same_but_band (mouseReleaseEvent s p) (mouseReleaseEvent t p).
Proof.
  destruct s as [cp pi km lm sc sr [rb o m cc mc vm] cw nh].
  destruct t as [cp' pi' km' lm' sc' sr' [rb' o' m' cc' mc' vm'] cw' nh'].
  unfold same_but_band, band_visible; simpl.
  intros (-> & -> & -> & -> & -> & -> & -> & -> & -> & -> & -> & -> & -> & Hv & Hn).
  unfold mouseReleaseEvent, release_scene_rect, crop_region; simpl.
  destruct rb as [[g v]|], rb' as [[g' v']|]; simpl in *.
  - subst v'. destruct v; [|repeat split; auto; discriminate].
    destruct cc'; [|simpl; repeat split; auto; discriminate].
    destruct pi' as [[h pos]|]; [|simpl; repeat split; auto; discriminate].
    destruct cp'; simpl; repeat split; auto; discriminate.
  - exfalso. destruct Hn as [_ Hn]. specialize (Hn eq_refl). discriminate.
  - exfalso. destruct Hn as [Hn _]. specialize (Hn eq_refl). discriminate.
  - repeat split; auto.
Qed.

(** X7. A crop does not depend on the path of the drag: in any state,
    press, any moves and release leave the window as press and release
    alone do, the same preview included, but for the geometry kept in the
    hidden rubber band. *)
Theorem crop_ignores_drag_path (s : MainWindow) (p0 p1 : QPoint) (val : Q)
    (ok : bool) (moves : list QPoint) :
  same_but_band
    (run (MousePress LeftButton p0 val ok
            :: map MouseMove moves ++ [MouseRelease p1]) s)
    (run [MousePress LeftButton p0 val ok; MouseRelease p1] s)
  /\ _crop_window
       (run (MousePress LeftButton p0 val ok
               :: map MouseMove moves ++ [MouseRelease p1]) s)
     = _crop_window (run [MousePress LeftButton p0 val ok; MouseRelease p1] s).
Proof.
  assert (H : same_but_band
    (run (MousePress LeftButton p0 val ok
            :: map MouseMove moves ++ [MouseRelease p1]) s)
    (run [MousePress LeftButton p0 val ok; MouseRelease p1] s)).
  { change (MousePress LeftButton p0 val ok
              :: map MouseMove moves ++ [MouseRelease p1])
      with ([MousePress LeftButton p0 val ok]
              ++ map MouseMove moves ++ [MouseRelease p1]).
    rewrite !run_app. simpl. apply release_same, moves_same. }
  split; [exact H|]. unfold same_but_band in H. tauto.
Qed.

(** X8. In any state the program reaches, in mark mode and with no crop
    drag pending, a click of the left button (press and release) does
    what one call of [add_kda_marker] does, at the scene height that the
    view maps the click to; a click of another button does nothing. *)
Theorem mark_click (evs : list event) (p q : QPoint) (val : Q) (ok : bool) :
  mode (view (run evs init)) = Some mark ->
  band_visible (run evs init) = false ->
  run [MousePress LeftButton p val ok; MouseRelease q] (run evs init)
  = add_kda_marker (run evs init)
      (fy (mapToScene (viewMap (view (run evs init))) p)) val ok
  /\ (forall b : MouseButton, b <> LeftButton ->
        run [MousePress b p val ok; MouseRelease q] (run evs init)
        = run evs init).
Proof.
  set (s := run evs init). intros Hm Hb.
  destruct (armed_inv_run evs armed_inv_init) as (_ & Hk & _).
  fold s in Hk. specialize (Hk Hm).
  assert (Hrel : forall t, view t = view s -> mouseReleaseEvent t q = t).
  { intros t Ev. unfold mouseReleaseEvent. rewrite Ev.
    unfold band_visible in Hb.
    destruct (rubberBand (view s)) as [rb|]; [|reflexivity].
    rewrite Hb. reflexivity. }
  split.
  - simpl. unfold mousePressEvent. rewrite Hm, Hk.
    apply Hrel, add_kda_marker_view.
  - intros b Hne. simpl. unfold mousePressEvent. rewrite Hm.
    destruct b; [congruence| |]; apply Hrel; reflexivity.
Qed.

End Gestures.

(** A value equal to an integer rounds to that integer. *)
Lemma qRound_int (d : Q) (n : Z) : d == inject_Z n -> qRound d = n.
Proof.
  intro E. destruct (qRound_bounds d) as [Hlo Hhi].
  set (r := qRound d) in *.
  assert (H1 : (r < n + 1)%Z).
  { rewrite Zlt_Qlt, inject_Z_plus. change (inject_Z 1) with 1. lra. }
  assert (H2 : (n < r + 1)%Z).
  { rewrite Zlt_Qlt, inject_Z_plus. change (inject_Z 1) with 1. lra. }
  lia.
Qed.

(** A real rectangle on integer coordinates goes to that integer
    rectangle. *)
Lemma toRect_int_box (r : QRectF) (x y0 w h : Z) :
  xp r == inject_Z x -> yp r == inject_Z y0 ->
  wd r == inject_Z w -> ht r == inject_Z h ->
  toRect r = QRect_xywh x y0 w h.
Proof.
  intros Hx Hy Hw Hh. unfold toRect.
  rewrite (qRound_int Hx), (qRound_int Hy).
  assert (Ew : wd r + (xp r - inject_Z x) / 2 == inject_Z w).
  { unfold Qdiv. change (/ 2) with (1 # 2). lra. }
  assert (Eh : ht r + (yp r - inject_Z y0) / 2 == inject_Z h).
  { unfold Qdiv. change (/ 2) with (1 # 2). lra. }
  rewrite (qRound_int Ew), (qRound_int Eh). reflexivity.
Qed.

Lemma stretch_keep (mn mx v : Q) :
  mn <= v -> v <= mx -> stretch (mn, mx) v = (mn, mx).
Proof.
  intros H1 H2. unfold stretch.
  apply Qltb_false in H1. apply Qltb_false in H2. rewrite H1, H2. reflexivity.
Qed.

Lemma stretch_up (mn mx v : Q) :
  mn <= v -> mx < v -> stretch (mn, mx) v = (mn, v).
Proof.
  intros H1 H2. unfold stretch.
  apply Qltb_false in H1. apply Qltb_true in H2. rewrite H1, H2. reflexivity.
Qed.

(** The bounding rectangle of the four corners of an upright box. *)
Lemma boundingRect_box (tl tr br bl : QPointF) :
  fx tl < fx tr -> fx br == fx tr -> fx bl == fx tl ->
  fy tr == fy tl -> fy tl < fy br -> fy bl == fy br ->
  boundingRect [tl; tr; br; bl] =
  mkQRectF (fx tl) (fy tl) (fx tr - fx tl) (fy br - fy tl).
Proof.
  intros H1 H2 H3 H4 H5 H6. unfold boundingRect. cbn [map fold_left].
  rewrite (@stretch_up (fx tl) (fx tl) (fx tr)) by lra.
  rewrite (@stretch_keep (fx tl) (fx tr) (fx br)) by lra.
  rewrite (@stretch_keep (fx tl) (fx tr) (fx bl)) by lra.
  rewrite (@stretch_keep (fy tl) (fy tl) (fy tr)) by lra.
  rewrite (@stretch_up (fy tl) (fy tl) (fy br)) by lra.
  rewrite (@stretch_keep (fy tl) (fy br) (fy bl)) by lra.
  reflexivity.
Qed.

(** X9. With a view that is not zoomed (scrolled by whole pixels at
    most), the release of a drag hands to the crop the normalized
    rectangle of the drag itself, moved by the scroll; and whatever the
    view, a drag whose normalized rectangle is not valid hands over the
    empty rectangle at the origin. *)
Theorem unzoomed_release_rect (v : CanvasView) (pos : QPoint) (dx dy : Z) :
  (unzoomed (viewMap v) dx dy ->
   isValid (normalized (QRect_of_points (origin v) pos)) = true ->
   release_scene_rect v pos =
   translated (normalized (QRect_of_points (origin v) pos)) (mkQPoint dx dy))
  /\ (isValid (normalized (QRect_of_points (origin v) pos)) = false ->
      release_scene_rect v pos = QRect_xywh 0 0 0 0).
Proof.
  unfold release_scene_rect.
  set (r := normalized (QRect_of_points (origin v) pos)). split.
  - intros Hz Hv. unfold mapToScene_rect. rewrite Hv.
    unfold isValid in Hv. apply andb_true_iff in Hv.
    destruct Hv as [Hx Hy]. apply Z.leb_le in Hx, Hy.
    destruct r as [a1 b1 a2 b2]. cbn [x1 y1 x2 y2] in Hx, Hy.
    unfold mapToScene, adjusted, topLeft, topRight, bottomRight, bottomLeft,
      toPointF. cbn [x1 y1 x2 y2 px py]. rewrite !Z.add_0_r.
    set (tl := viewMap v (mkQPointF (inject_Z a1) (inject_Z b1))).
    set (tr := viewMap v (mkQPointF (inject_Z (a2 + 1)) (inject_Z b1))).
    set (br := viewMap v (mkQPointF (inject_Z (a2 + 1)) (inject_Z (b2 + 1)))).
    set (bl := viewMap v (mkQPointF (inject_Z a1) (inject_Z (b2 + 1)))).
    destruct (Hz (mkQPointF (inject_Z a1) (inject_Z b1))) as [Etlx Etly].
    destruct (Hz (mkQPointF (inject_Z (a2 + 1)) (inject_Z b1))) as [Etrx Etry].
    destruct (Hz (mkQPointF (inject_Z (a2 + 1)) (inject_Z (b2 + 1))))
      as [Ebrx Ebry].
    destruct (Hz (mkQPointF (inject_Z a1) (inject_Z (b2 + 1)))) as [Eblx Ebly].
    fold tl in Etlx, Etly. fold tr in Etrx, Etry.
    fold br in Ebrx, Ebry. fold bl in Eblx, Ebly.
    cbn [fx fy] in Etlx, Etly, Etrx, Etry, Ebrx, Ebry, Eblx, Ebly.
    assert (Hax : inject_Z a1 < inject_Z (a2 + 1))
      by (rewrite <- Zlt_Qlt; lia).
    assert (Hay : inject_Z b1 < inject_Z (b2 + 1))
      by (rewrite <- Zlt_Qlt; lia).
    rewrite boundingRect_box by lra.
    rewrite (@toRect_int_box _ (a1 + dx) (b1 + dy) (a2 + 1 - a1) (b2 + 1 - b1)).
    + unfold QRect_xywh, translated. cbn [x1 y1 x2 y2 px py]. f_equal; lia.
    + cbn [xp]. rewrite inject_Z_plus. lra.
    + cbn [yp]. rewrite inject_Z_plus. lra.
    + cbn [wd]. unfold Z.sub. rewrite !inject_Z_plus, inject_Z_opp.
      rewrite inject_Z_plus in Etrx. lra.
    + cbn [ht]. unfold Z.sub. rewrite !inject_Z_plus, inject_Z_opp.
      rewrite inject_Z_plus in Ebry. lra.
  - intro Hv. unfold mapToScene_rect. rewrite Hv. reflexivity.
Qed.

(* ================================================================== *)
(** ** Further properties: the earlier iterations *)
(* ================================================================== *)

Section Earlier.

Context {tk : Toolkit}.

Lemma main_py_run_scene (calls : list (String.string * QPixmap))
    (s : MainPy.MainWindow) :
  map snd (MainPy.scene (MainPy.run calls s)) =
  match MainPy.last_chosen calls with
  | None => map snd (MainPy.scene s)
  | Some pm => [PixmapItem pm (mkQPointF 0 0)]
  end.
Proof.
  revert s. induction calls as [|[fname pm] rest IH]; intro s.
  - reflexivity.
  - change (MainPy.run ((fname, pm) :: rest) s)
      with (MainPy.run rest (MainPy.open_image s fname pm)).
    rewrite IH. simpl. destruct (MainPy.last_chosen rest); [reflexivity|].
    destruct fname; reflexivity.
Qed.

(** X10. In [main.py], after any sequence of Open Image commands the
    scene holds one item, the pixmap of the last command for which a file
    was chosen, or nothing when no file was ever chosen; this is so also
    when that file did not decode, so a failed open replaces the image
    shown before by an empty one. *)
Theorem main_py_scene_is_last_chosen (calls : list (String.string * QPixmap)) :
  map snd (MainPy.scene (MainPy.run calls MainPy.init)) =
  match MainPy.last_chosen calls with
  | None => []
  | Some pm => [PixmapItem pm (mkQPointF 0 0)]
  end.
Proof.
  apply main_py_run_scene.
Qed.

(** Placing a marker under a fresh pair of handles keeps the marker list
    in order, whatever is done to the scene. *)
Lemma store_inv_place (s : MainWindow) (scene_y val : Q) (sc : Scene) :
  store_inv s ->
  store_inv
    (set_markers s
       (list_sort y
          (kda_markers s
           ++ [mkMarker scene_y val (next_handle s) (S (next_handle s))]))
       sc (S (S (next_handle s)))).
Proof.
  intros [Hs Hf]. unfold store_inv; simpl.
  rewrite list_sort_snoc, (list_sort_sorted_id (aged_key_le Hs)). split.
  - apply insert_right_aged; [exact Hs | exact Hf].
  - rewrite Forall_insert_right. split; [simpl; lia|].
    eapply Forall_impl; [|exact Hf]. simpl. intros a Ha. lia.
Qed.

Lemma maina_store_inv_step (s : MainWindow) (e : event) :
  store_inv s -> store_inv (MainA.step s e).
Proof.
  intro H. destruct e as [path pm| | | | |b pos val ok|pos|pos]; simpl.
  - unfold MainA.open_image. destruct path; [exact H|].
    destruct (pm_isNull pm); [exact H|]. unfold store_inv; simpl.
    split; constructor.
  - unfold enable_mark_mode. destruct (current_pixmap s); exact H.
  - unfold enable_crop_mode. destruct (current_pixmap s); exact H.
  - apply store_inv_undo, H.
  - unfold store_inv; simpl. split; constructor.
  - unfold MainA.mousePressEvent.
    destruct b; try exact H.
    destruct (mode (view s)) as [[|]|]; try exact H.
    + destruct (crop_callback (view s)); exact H.
    + destruct (mark_callback (view s)); [|exact H].
      unfold MainA.add_kda_marker. destruct ok; [|exact H].
      destruct (pixmap_item s) as [[h p]|]; [|exact H].
      apply store_inv_place, H.
  - unfold mouseMoveEvent. destruct (rubberBand (view s)) as [rb|]; [|exact H].
    destruct (isVisible rb); exact H.
  - unfold MainA.mouseReleaseEvent.
    destruct (rubberBand (view s)) as [rb|]; [|exact H].
    destruct (isVisible rb); [|exact H].
    destruct (crop_callback (view s)); [|exact H].
    unfold MainA.crop_region; simpl.
    destruct (current_pixmap s); exact H.
Qed.

(** X11. In [maina.py] too, after any sequence of events the marker list
    is non-decreasing in [y], and two markers with equal [y] stand in the
    order they were placed in. *)
Theorem maina_marker_list_sorted (evs : list event) :
  StronglySorted (fun a b => y a <= y b)
    (kda_markers (MainA.run evs MainA.init))
  /\ (forall (i j : nat) (a b : Marker), (i < j)%nat ->
        nth_error (kda_markers (MainA.run evs MainA.init)) i = Some a ->
        nth_error (kda_markers (MainA.run evs MainA.init)) j = Some b ->
        y a == y b -> (line a < line b)%nat).
Proof.
  assert (H : store_inv (MainA.run evs MainA.init)).
  { assert (G : forall s, store_inv s -> store_inv (MainA.run evs s)).
    { induction evs as [|e evs IH]; intros s Hs; simpl; [exact Hs|].
      apply IH, maina_store_inv_step, Hs. }
    apply G. split; constructor. }
  destruct H as [Hs _]. split.
  - exact (aged_key_le Hs).
  - intros i j a b Hij Hi Hj Hy.
    destruct (StronglySorted_nth Hs Hij Hi Hj) as [_ Hage].
    apply Hage. rewrite Hy. apply Qle_refl.
Qed.

Lemma removeItem_Forall_items (P : Item -> Prop) (sc : Scene) (h : handle) :
  Forall P (map snd sc) -> Forall P (map snd (removeItem sc h)).
Proof.
  rewrite !Forall_forall. intros H i Hi.
  apply in_map_iff in Hi. destruct Hi as ([k i'] & <- & Hin).
  apply filter_In in Hin. apply H, in_map_iff.
  exists (k, i'). split; [reflexivity | apply Hin].
Qed.

Lemma maina_edge_inv_step (s : MainWindow) (e : event) :
  MainA.edge_inv s -> MainA.edge_inv (MainA.step s e).
Proof.
  intro H. pose proof H as [Hp Hf]. destruct e as [path pm| | | | |b pos val ok|pos|pos]; simpl.
  - unfold MainA.open_image. destruct path; [exact H|].
    destruct (pm_isNull pm); [exact H|].
    split; simpl.
    + intros h p E. inversion E. reflexivity.
    + repeat constructor.
  - unfold enable_mark_mode. destruct (current_pixmap s); exact H.
  - unfold enable_crop_mode. destruct (current_pixmap s); exact H.
  - unfold undo_last_kda.
    destruct (pop (kda_markers s)) as [[last rest]|]; [|exact H].
    split; [exact Hp|]. simpl.
    apply removeItem_Forall_items, removeItem_Forall_items, Hf.
  - split; [exact Hp|]. unfold clear_all_kda; simpl.
    generalize (scene s) Hf. induction (kda_markers s) as [|m ms IH];
      intros sc Hsc; simpl; [exact Hsc|].
    apply IH, removeItem_Forall_items, removeItem_Forall_items, Hsc.
  - unfold MainA.mousePressEvent.
    destruct b; try (exact H).
    destruct (mode (view s)) as [[|]|]; try (exact H).
    + destruct (crop_callback (view s)); exact H.
    + destruct (mark_callback (view s)); [|exact H].
      unfold MainA.add_kda_marker. destruct ok; [|exact H].
      destruct (pixmap_item s) as [[h p]|] eqn:Ei; [|exact H].
      rewrite (Hp h p eq_refl). split; simpl.
      * rewrite Ei. exact Hp.
      * rewrite map_app. apply Forall_app. split; [exact Hf|].
        repeat constructor.
  - unfold mouseMoveEvent.
    destruct (rubberBand (view s)) as [rb|]; [|exact H].
    destruct (isVisible rb); exact H.
  - unfold MainA.mouseReleaseEvent.
    destruct (rubberBand (view s)) as [rb|]; [|exact H].
    destruct (isVisible rb); [|exact H].
    destruct (crop_callback (view s)); [|exact H].
    unfold MainA.crop_region; simpl.
    destruct (current_pixmap s); exact H.
Qed.

Lemma maina_preview_ticks (r : QRect) (ms : list Marker) :
  Forall MainA.tick_over_image (flat_map (MainA.preview_tick r) ms).
Proof.
  induction ms as [|m ms IH]; simpl; [constructor|].
  constructor; [split; reflexivity|]. constructor; [exact I | exact IH].
Qed.

(** X12. In [maina.py] the image sits at the scene's origin and every
    tick is drawn over it, from its left edge at x = 0 to x = 20,
    whatever events came; the preview of a crop draws its ticks the same
    way, over the crop. *)
Theorem maina_ticks_over_image (evs : list event) :
  (forall (h : handle) (pos : QPointF),
     pixmap_item (MainA.run evs MainA.init) = Some (h, pos) ->
     pos = mkQPointF 0 0)
  /\ Forall MainA.tick_over_image
       (map snd (scene (MainA.run evs MainA.init)))
  /\ (forall (s s' : MainWindow) (r : QRect) (pv : Preview),
        MainA.crop_region s r = Some s' -> _crop_window s' = Some pv ->
        pv_pixmap_pos pv = mkQPointF 0 0
        /\ Forall MainA.tick_over_image (pv_items pv)).
Proof.
  assert (H : MainA.edge_inv (MainA.run evs MainA.init)).
  { assert (G : forall s, MainA.edge_inv s -> MainA.edge_inv (MainA.run evs s)).
    { induction evs as [|e evs IH]; intros s Hs; simpl; [exact Hs|].
      apply IH, maina_edge_inv_step, Hs. }
    apply G. split; [intros h pos E; discriminate | constructor]. }
  destruct H as [Hp Hf]. split; [exact Hp|]. split; [exact Hf|].
  intros s s' r pv E Hw. unfold MainA.crop_region in E.
  destruct (current_pixmap s); [|discriminate].
  inversion E; subst s'. simpl in Hw. injection Hw as <-. simpl.
  split; [reflexivity | apply maina_preview_ticks].
Qed.

Lemma maina_tick_positions (r : QRect) (ms : list Marker) :
  tick_positions (flat_map (MainA.preview_tick r) ms) =
  map (fun m => y m - inject_Z (top r)) ms.
Proof.
  induction ms as [|m ms IH]; simpl; [reflexivity|].
  rewrite IH. reflexivity.
Qed.

Lemma translated_rows (r : QRect) (a : Z) :
  top (translated r (mkQPoint a 0)) = top r
  /\ bottom (translated r (mkQPoint a 0)) = bottom r.
Proof.
  unfold top, bottom, translated; simpl. split; lia.
Qed.

Lemma same_heights_same_ticks (r : QRect) (la lb : list Marker) :
  map y la = map y lb ->
  map (fun m => y m - inject_Z (top r)) (filter (inside_rect r) la) =
  map (fun m => y m - inject_Z (top r)) (filter (inside_rect r) lb).
Proof.
  revert lb. induction la as [|a la IH]; intros [|b lb] E; simpl in E;
    try discriminate; [reflexivity|].
  injection E as Ey Erest.
  assert (Ei : inside_rect r a = inside_rect r b)
    by (unfold inside_rect; rewrite Ey; reflexivity).
  simpl. rewrite Ei. destruct (inside_rect r b); simpl.
  - rewrite Ey. f_equal. apply IH, Erest.
  - apply IH, Erest.
Qed.

(** X13. The two versions crop alike: for the same image and markers at
    the same heights, the crop of a rectangle in [maina.py] and the crop
    in [mainb.py] of that rectangle moved right by the margin of 60 copy
    the same pixels and draw their ticks at the same heights. *)
Theorem crop_same_across_versions (evs : list event) (sa : MainWindow)
    (r : QRect) :
  current_pixmap (run evs init) <> None ->
  current_pixmap sa = current_pixmap (run evs init) ->
  map y (kda_markers sa) = map y (kda_markers (run evs init)) ->
  exists (sa' sb' : MainWindow) (pva pvb : Preview),
    MainA.crop_region sa r = Some sa'
    /\ crop_region (run evs init) (translated r (mkQPoint 60 0)) = Some sb'
    /\ _crop_window sa' = Some pva /\ _crop_window sb' = Some pvb
    /\ pv_pixmap pva = pv_pixmap pvb
    /\ tick_positions (pv_items pva) = tick_positions (pv_items pvb).
Proof.
  intros Hne Hcp Hkm.
  pose proof (scene_inv_reached evs) as (_ & _ & _ & Hinv).
  destruct (pixmap_item (run evs init)) as [[h pos]|] eqn:Ei;
    [|destruct Hinv; contradiction].
  destruct Hinv as (-> & pm & Hpm & _).
  unfold MainA.crop_region, crop_region. rewrite Hcp, Ei, Hpm.
  do 4 eexists. split; [reflexivity|]. split; [reflexivity|].
  split; [reflexivity|]. split; [reflexivity|]. simpl. split.
  - f_equal. rewrite toPoint_placement. destruct r as [a b c d].
    unfold translated, QPoint_neg; simpl. f_equal; lia.
  - rewrite maina_tick_positions, tick_positions_preview.
    destruct (translated_rows r 60) as [Ht Hb].
    rewrite Ht, (same_heights_same_ticks r _ _ Hkm).
    f_equal. apply filter_ext. intro m.
    unfold inside_rect. rewrite Ht, Hb. reflexivity.
Qed.

End Earlier.

(* ================================================================== *)
(** ** The further properties at concrete sessions *)
(* ================================================================== *)

(** With the markers at 50 and at 100: five items in the scene. *)
Lemma scene_shows_store_witness :
  List.length (scene (run (tk := plain_toolkit) two_marker_events
                        (init (tk := plain_toolkit)))) = 5%nat.
Proof.
  destruct (@scene_shows_store plain_toolkit two_marker_events 2%nat
              (placement 60) ltac:(vm_compute; reflexivity))
    as (_ & pm & _ & _ & _ & Hlen).
  rewrite Hlen. vm_compute. reflexivity.
Defined.

(** With the markers at 50 and at 100: after Clear All kDa the image
    alone is in the scene. *)
Lemma clear_leaves_image_witness :
  map fst (scene (clear_all_kda
                    (run (tk := plain_toolkit) two_marker_events
                       (init (tk := plain_toolkit))))) = [2%nat].
Proof.
  destruct (@clear_leaves_image plain_toolkit two_marker_events) as [H _].
  destruct (H 2%nat (placement 60) ltac:(vm_compute; reflexivity))
    as (pm & _ & Hsc & _).
  rewrite Hsc. reflexivity.
Defined.

(** With no image opened, commands and clicks leave the window as it
    started. *)
Lemma no_image_no_change_witness :
  run (tk := plain_toolkit)
    [EnableMarkMode; click_at 10 5; EnableCropMode; UndoLastKda; ClearAllKda;
     MouseRelease (mkQPoint 3 4)]
    (init (tk := plain_toolkit))
  = init (tk := plain_toolkit).
Proof.
  apply (proj1 (@no_image_no_change plain_toolkit
    [EnableMarkMode; click_at 10 5; EnableCropMode; UndoLastKda; ClearAllKda;
     MouseRelease (mkQPoint 3 4)])).
  vm_compute. reflexivity.
Defined.

(** With [gel] open and two markers: the image is at (60, 0). *)
Lemma ticks_stay_in_gutter_witness :
  option_map snd
    (pixmap_item (run (tk := plain_toolkit) two_marker_events
                    (init (tk := plain_toolkit))))
  = Some (mkQPointF 60 0).
Proof.
  destruct (@ticks_stay_in_gutter plain_toolkit two_marker_events)
    as (_ & H & _).
  destruct (pixmap_item (run (tk := plain_toolkit) two_marker_events
                           (init (tk := plain_toolkit))))
    as [[h pos]|] eqn:E; [|vm_compute in E; discriminate].
  rewrite (H h pos eq_refl). reflexivity.
Defined.

(** With the markers at 50 and at 100: a marker placed at 150 is undone
    by Undo Last kDa; one placed at 75 is not, the undo takes the marker
    at 100. *)
Lemma place_then_undo_witness :
  kda_markers
    (undo_last_kda
       (add_kda_marker (tk := plain_toolkit)
          (run (tk := plain_toolkit) two_marker_events
             (init (tk := plain_toolkit))) 150 30 true))
  = kda_markers (run (tk := plain_toolkit) two_marker_events
                   (init (tk := plain_toolkit)))
  /\ In (mkMarker 75 30 7%nat 8%nat)
        (kda_markers
           (undo_last_kda
              (add_kda_marker (tk := plain_toolkit)
                 (run (tk := plain_toolkit) two_marker_events
                    (init (tk := plain_toolkit))) 75 30 true))).
Proof.
  split.
  - destruct (@place_then_undo plain_toolkit two_marker_events 150 30
                ltac:(vm_compute; discriminate)) as [H _].
    apply H. vm_compute.
    repeat (apply Forall_cons; [intro E; discriminate E|]). apply Forall_nil.
  - destruct (@place_then_undo plain_toolkit two_marker_events 75 30
                ltac:(vm_compute; discriminate)) as [_ H].
    apply H. vm_compute. apply Exists_cons_tl, Exists_cons_hd. reflexivity.
Defined.

(** With the markers at 120 and 5 and a selection over columns 70 to 120:
    the crop copies columns 10 to 60 of the image. *)
Lemma crop_reads_shifted_rect_witness :
  exists (s' : MainWindow) (pv : Preview),
    crop_region (tk := plain_toolkit) (run (tk := plain_toolkit) marked_events
                   (init (tk := plain_toolkit))) rows_100_200 = Some s'
    /\ _crop_window s' = Some pv
    /\ pv_pixmap_pos pv = mkQPointF 60 0.
Proof.
  destruct (crop_region (tk := plain_toolkit) (run (tk := plain_toolkit) marked_events
                           (init (tk := plain_toolkit))) rows_100_200)
    as [s'|] eqn:E; [|vm_compute in E; discriminate].
  destruct (@crop_reads_shifted_rect plain_toolkit marked_events rows_100_200
              s' E) as (pm & pv & pr & _ & Hw & _ & Hpos & _).
  exists s', pv. auto.
Defined.

(** In mark mode with two markers: a click at viewport height 150
    answered by 30 is one placement at scene height 150. *)
Lemma mark_click_witness :
  run (tk := plain_toolkit)
    [MousePress LeftButton (mkQPoint 30 150) 30 true;
     MouseRelease (mkQPoint 30 150)]
    (run (tk := plain_toolkit) two_marker_events (init (tk := plain_toolkit)))
  = add_kda_marker (tk := plain_toolkit)
      (run (tk := plain_toolkit) two_marker_events (init (tk := plain_toolkit)))
      (fy (mapToScene
             (viewMap (view (run (tk := plain_toolkit) two_marker_events
                               (init (tk := plain_toolkit)))))
             (mkQPoint 30 150)))
      30 true.
Proof.
  apply (@mark_click plain_toolkit two_marker_events (mkQPoint 30 150)
           (mkQPoint 30 150) 30 true);
    vm_compute; reflexivity.
Defined.

(** With a view that shows the scene as it is, a drag from (70, 20) to
    (120, 90) hands over the rectangle with these corners. *)
Lemma unzoomed_release_rect_witness :
  release_scene_rect
    (mkCanvasView None (mkQPoint 70 20) (Some crop) true false (fun p => p))
    (mkQPoint 120 90)
  = translated (mkQRect 70 20 120 90) (mkQPoint 0 0).
Proof.
  apply (proj1 (unzoomed_release_rect
    (mkCanvasView None (mkQPoint 70 20) (Some crop) true false (fun p => p))
    (mkQPoint 120 90) 0 0)).
  - intro p. simpl. split; ring.
  - reflexivity.
Defined.

(** In [maina.py], two markers placed at the same height: the first one
    placed stands first and has the older tick. *)
Lemma maina_marker_list_sorted_witness :
  map kda (kda_markers (MainA.run (tk := plain_toolkit) maina_ties
                          (MainA.init (tk := plain_toolkit)))) = [10; 20]
  /\ (line (mkMarker 50 10 1%nat 2%nat) < line (mkMarker 50 20 3%nat 4%nat))%nat.
Proof.
  split; [vm_compute; reflexivity|].
  destruct (@maina_marker_list_sorted plain_toolkit maina_ties) as [_ H].
  apply (H 0%nat 1%nat (mkMarker 50 10 1%nat 2%nat) (mkMarker 50 20 3%nat 4%nat));
    [lia | vm_compute; reflexivity | vm_compute; reflexivity | reflexivity].
Defined.

(** In [maina.py] with [gel] open and two markers: the image is at the
    origin. *)
Lemma maina_ticks_over_image_witness :
  option_map snd
    (pixmap_item (MainA.run (tk := plain_toolkit) marked_events
                    (MainA.init (tk := plain_toolkit))))
  = Some (mkQPointF 0 0).
Proof.
  destruct (@maina_ticks_over_image plain_toolkit marked_events) as (H & _).
  destruct (pixmap_item (MainA.run (tk := plain_toolkit) marked_events
                           (MainA.init (tk := plain_toolkit))))
    as [[h pos]|] eqn:E; [|vm_compute in E; discriminate].
  rewrite (H h pos eq_refl). reflexivity.
Defined.

(** The crop of columns 10 to 60 in [maina.py] and of columns 70 to 120
    in [mainb.py], rows 100 to 200, markers at 120 and 5 in both. *)
Lemma crop_same_across_versions_witness :
  exists (sa' sb' : MainWindow) (pva pvb : Preview),
    MainA.crop_region (tk := plain_toolkit) maina_marked
      (mkQRect 10 100 60 200) = Some sa'
    /\ crop_region (tk := plain_toolkit) (run (tk := plain_toolkit) marked_events
                      (init (tk := plain_toolkit)))
         (translated (mkQRect 10 100 60 200) (mkQPoint 60 0)) = Some sb'
    /\ _crop_window sa' = Some pva /\ _crop_window sb' = Some pvb
    /\ pv_pixmap pva = pv_pixmap pvb
    /\ tick_positions (pv_items pva) = tick_positions (pv_items pvb).
Proof.
  apply (@crop_same_across_versions plain_toolkit marked_events maina_marked
           (mkQRect 10 100 60 200)).
  - vm_compute. discriminate.
  - vm_compute. reflexivity.
  - vm_compute. reflexivity.
Defined.
